(** * ImportMarkerFeatures: a shallow embedding and its properties

    The node [ImportMarkerFeatures] (src/GCPMarkerAdditions/ImportMarkerFeatures.py)
    reads a view-set document and a delimited marker table, writes one feature
    file and one descriptor file per catalogued view and, in bypass mode, a
    match file.  The methods [load_images], [load_viewids], [write_describers],
    [make_matches_txt] and [processChunk] are embedded below as functions over
    explicit data:

    - a Python [dict] is an association list with unique keys kept in
      insertion order ([dict_set] replaces in place or appends);
    - an exception is the left summand of [result]; the local variables and
      the objects a method mutates are threaded as a state record;
    - the filesystem is a [dict] from path to file content; a file opened for
      writing is truncated at [open] and receives its buffer at [close];
      a file is named by the path string given to [open], and [open] for
      writing is taken to succeed (the folders exist and can be written);
    - the view-set document is given decoded, as the list of its records,
      each with a [path] and a [viewId] that are strings;
    - text is [string] (bytes), a binary file is a list of byte values in [Z];
    - logging and the progress bar are not modelled.

    Library calls are modelled on the inputs this node gives them:
    [os.path] is [posixpath]; [int] is Python's parser on ASCII text, with
    no limit on the number of digits; [csv.reader] is modelled on text
    without quote characters and with no limit on the size of a field; the
    iteration order of a Python [set] is a parameter of the development.
    Statements about [load_images] are therefore relative to the rows the
    reader yields, and no statement lists the exceptions of [open], of the
    JSON decoder or of the reader. *)

From Stdlib Require Import String Ascii.
From Stdlib Require Import List ZArith Lia Bool Arith Permutation.
From Stdlib Require DecimalString.
Import ListNotations.

Open Scope string_scope.
Open Scope list_scope.

Infix "+++" := String.append (at level 60, right associativity).

(** ** Exceptions *)

Inductive error : Type :=
| IndexError
| ValueError
| KeyError
| UnboundLocalError
| StructError
| OSError
| Exception.

Definition result (A : Type) : Type := (error + A)%type.

Notation "x <- e ;; k" :=
  (match e with inl err => inl err | inr x => k end)
  (at level 61, e at next level, right associativity).

Notation "' p <- e ;; k" :=
  (match e with inl err => inl err | inr p => k end)
  (at level 61, p pattern, e at next level, right associativity).

Definition of_option {A : Type} (err : error) (o : option A) : result A :=
  match o with Some a => inr a | None => inl err end.

(** ** Python dictionaries *)

Class EqKey (K : Type) : Type := {
  keqb : K -> K -> bool;
  keqb_spec : forall a b, keqb a b = true <-> a = b
}.

#[global] Instance string_EqKey : EqKey string :=
  {| keqb := String.eqb; keqb_spec := String.eqb_eq |}.

#[global] Instance Z_EqKey : EqKey Z :=
  {| keqb := Z.eqb; keqb_spec := Z.eqb_eq |}.

Section Dict.
Context {K V : Type} `{EqKey K}.

Definition dict : Type := list (K * V).

(** [d[k]], [None] standing for the missing key. *)
Fixpoint dict_get (d : dict) (k : K) : option V :=
  match d with
  | [] => None
  | (k', v) :: r => if keqb k' k then Some v else dict_get r k
  end.

(** [d[k] = v]: an existing key keeps its position. *)
Fixpoint dict_set (d : dict) (k : K) (v : V) : dict :=
  match d with
  | [] => [(k, v)]
  | (k', v') :: r =>
      if keqb k' k then (k', v) :: r else (k', v') :: dict_set r k v
  end.

Definition dict_keys (d : dict) : list K := map fst d.
Definition dict_values (d : dict) : list V := map snd d.

(** [k in d] *)
Definition dict_mem (d : dict) (k : K) : bool :=
  match dict_get d k with Some _ => true | None => false end.
End Dict.

Arguments dict K V : clear implicits.

(** ** Text helpers *)

Definition LF : ascii := ascii_of_nat 10.
Definition CR : ascii := ascii_of_nat 13.
Definition nl : string := String LF EmptyString.

(** [sep.join(parts)] *)
Fixpoint str_join (sep : string) (parts : list string) : string :=
  match parts with
  | [] => ""
  | [p] => p
  | p :: rest => p +++ sep +++ str_join sep rest
  end.

(** [str(n)] for a non-negative integer *)
Definition str_of_nat (n : nat) : string :=
  DecimalString.NilZero.string_of_uint (Nat.to_uint n).

(** [int(s)] on ASCII text: surrounding white space is dropped, one sign is
    allowed, then decimal digits, single underscores only between digits.
    No bound is put on the number of digits. *)
Definition is_space (c : ascii) : bool :=
  let n := nat_of_ascii c in (((9 <=? n) && (n <=? 13)) || (n =? 32))%nat.

Definition digit_of (c : ascii) : option Z :=
  let n := nat_of_ascii c in
  if ((48 <=? n) && (n <=? 57))%nat then Some (Z.of_nat (n - 48)) else None.

Fixpoint lstrip (s : list ascii) : list ascii :=
  match s with
  | [] => []
  | c :: r => if is_space c then lstrip r else s
  end.

Definition strip (s : list ascii) : list ascii :=
  rev (lstrip (rev (lstrip s))).

Fixpoint parse_digits (s : list ascii) (acc : Z) (after_digit : bool)
  : option Z :=
  match s with
  | [] => if after_digit then Some acc else None
  | c :: r =>
      match digit_of c with
      | Some d => parse_digits r (10 * acc + d) true
      | None =>
          if Ascii.eqb c "_"%char && after_digit
          then parse_digits r acc false
          else None
      end
  end.

Definition py_int (s : string) : option Z :=
  match strip (list_ascii_of_string s) with
  | [] => None
  | c :: r =>
      if Ascii.eqb c "-"%char then option_map Z.opp (parse_digits r 0 false)
      else if Ascii.eqb c "+"%char then parse_digits r 0 false
      else parse_digits (c :: r) 0 false
  end.

(** ** Reading the marker table: [open(filepath)] and [csv.reader] *)

(** Text mode with universal newlines: CR LF and a lone CR are read as LF. *)
Fixpoint universal_newlines (s : list ascii) : list ascii :=
  match s with
  | [] => []
  | c :: r =>
      if Ascii.eqb c CR
      then LF :: match r with
                 | [] => []
                 | c' :: r' =>
                     if Ascii.eqb c' LF then universal_newlines r'
                     else universal_newlines r
                 end
      else c :: universal_newlines r
  end.

Fixpoint split_on (sep : ascii) (s : list ascii) (cur : list ascii)
  : list (list ascii) :=
  match s with
  | [] => [rev cur]
  | c :: r =>
      if Ascii.eqb c sep then rev cur :: split_on sep r []
      else split_on sep r (c :: cur)
  end.

(** The lines a text file iterates over: no line follows a final newline. *)
Definition file_lines (s : list ascii) : list (list ascii) :=
  let pieces := split_on LF s [] in
  match rev pieces with
  | [] :: before => rev before
  | _ => pieces
  end.

(** One record per line, its fields split at the delimiter; an empty line is
    the empty record.  This is what [csv.reader(file, delimiter=...)] with
    the default dialect yields on text that holds no double-quote character
    (quoting is not modelled). *)
Definition csv_record (delimiter : ascii) (line : list ascii) : list string :=
  match line with
  | [] => []
  | _ => map string_of_list_ascii (split_on delimiter line [])
  end.

Definition csv_reader (delimiter : ascii) (content : string)
  : list (list string) :=
  map (csv_record delimiter)
      (file_lines (universal_newlines (list_ascii_of_string content))).

(** ** MarkerTable: [load_images] *)

(** A marker is the list [[x, y, size, markerId]] built by [[*item[1:]]]. *)
Record marker : Type := {
  feat_x : string;
  feat_y : string;
  feat_size : string;
  tagid : Z
}.

Definition csv_item : Type := (string * marker)%type.

(** [row[i]] *)
Definition getitem (row : list string) (i : nat) : result string :=
  of_option IndexError (nth_error row i).

(** [(row[2], row[0], row[1], row[4], int(row[3]))], evaluated left to right. *)
Definition parse_row (row : list string) : result csv_item :=
  img <- getitem row 2 ;;
  x <- getitem row 0 ;;
  y <- getitem row 1 ;;
  size <- getitem row 4 ;;
  id_text <- getitem row 3 ;;
  id <- of_option ValueError (py_int id_text) ;;
  inr (img, {| feat_x := x; feat_y := y; feat_size := size; tagid := id |}).

Fixpoint parse_rows (rows : list (list string)) : result (list csv_item) :=
  match rows with
  | [] => inr []
  | row :: rest =>
      item <- parse_row row ;;
      items <- parse_rows rest ;;
      inr (item :: items)
  end.

Definition images_t : Type := dict string (list marker).

(** [images.update({item[0]: [] for item in csv_data})] on the empty [images] *)
Definition init_groups (csv_data : list csv_item) : images_t :=
  fold_left (fun d item => dict_set d (fst item) []) csv_data [].

(** [for item in csv_data: images[item[0]].append([*item[1:]])] *)
Fixpoint append_items (csv_data : list csv_item) (images : images_t)
  : result images_t :=
  match csv_data with
  | [] => inr images
  | item :: rest =>
      group <- of_option KeyError (dict_get images (fst item)) ;;
      append_items rest (dict_set images (fst item) (group ++ [snd item]))
  end.

Definition load_images (content : string) (delimiter : ascii)
  : result images_t :=
  csv_data <- parse_rows (csv_reader delimiter content) ;;
  append_items csv_data (init_groups csv_data).

(** ** ViewCatalog: [load_viewids] *)

(** A record of the view-set document; only [path] and [viewId] are read.
    [viewId] is the JSON string the node later concatenates to file names. *)
Record view : Type := {
  path : string;
  viewId : string
}.

(** [posixpath.basename]: what follows the last slash. *)
Definition basename (p : string) : string :=
  string_of_list_ascii
    (last (split_on "/"%char (list_ascii_of_string p) []) []).

Definition lookup_t : Type := dict string string.

(** [views_lookup[os.path.basename(item["path"])] = item["viewId"]] *)
Definition views_step (views_lookup : lookup_t) (item : view) : lookup_t :=
  dict_set views_lookup (basename (path item)) (viewId item).

(** [input] is [None] when [os.path.isfile] fails. *)
Definition load_viewids (input : option (list view)) : result lookup_t :=
  match input with
  | None => inl Exception
  | Some views => inr (fold_left views_step views [])
  end.

(** ** The node's parameters *)

Inductive delimiter_choice : Type := space | tab | comma | colon | semicolon.

Inductive descriptor_type : Type := cctag3 | cctag4.

Definition type_value (t : descriptor_type) : string :=
  match t with cctag3 => "cctag3" | cctag4 => "cctag4" end.

Record node : Type := {
  input : option (list view);
  matches : option string;
  hack : bool;
  delimiter : delimiter_choice;
  type : descriptor_type;
  output : string;
  matches_out : string
}.

(** ** Files *)

Inductive file : Type :=
| TextFile (text : string)
| BinaryFile (bytes : list Z).

Definition filesystem : Type := dict string file.

Definition starts_with_sep (s : string) : bool :=
  match s with
  | String c _ => Ascii.eqb c "/"%char
  | EmptyString => false
  end.

Definition ends_with_sep (s : string) : bool :=
  match rev (list_ascii_of_string s) with
  | c :: _ => Ascii.eqb c "/"%char
  | [] => false
  end.

(** [posixpath.join(a, b)] *)
Definition os_path_join (a b : string) : string :=
  if starts_with_sep b then b
  else if (String.eqb a "" || ends_with_sep a)%bool then a +++ b
  else a +++ "/" +++ b.

Definition feat_path (nd : node) (viewid : string) : string :=
  os_path_join (output nd) (viewid +++ "." +++ type_value (type nd) +++ ".feat").

Definition desc_path (nd : node) (viewid : string) : string :=
  os_path_join (output nd) (viewid +++ "." +++ type_value (type nd) +++ ".desc").

Definition matches_path (nd : node) : string :=
  os_path_join (matches_out nd) "0.matches.txt".

(** ** Binary encodings *)

Fixpoint le_bytes (n : nat) (z : Z) : list Z :=
  match n with
  | O => []
  | S n' => (z mod 256)%Z :: le_bytes n' (z / 256)%Z
  end.

(** [struct.pack('<Q', z)] *)
Definition struct_pack_Q (z : Z) : result (list Z) :=
  if ((0 <=? z) && (z <? 2 ^ 64))%Z then inr (le_bytes 8 z)
  else inl StructError.

(** Little-endian decoding, the inverse a reader of the file applies. *)
Fixpoint le_decode (bs : list Z) : Z :=
  match bs with
  | [] => 0%Z
  | b :: r => (b + 256 * le_decode r)%Z
  end.

Definition bytearray (n : nat) : list Z := repeat 0%Z n.

Fixpoint list_set (l : list Z) (i : nat) (v : Z) : list Z :=
  match l, i with
  | [], _ => []
  | _ :: r, O => v :: r
  | x :: r, S i' => x :: list_set r i' v
  end.

(** [data[i] = v]: a negative index counts from the end. *)
Definition bytearray_setitem (data : list Z) (i v : Z) : result (list Z) :=
  let len := Z.of_nat (length data) in
  let j := if (i <? 0)%Z then (i + len)%Z else i in
  if ((0 <=? j) && (j <? len))%Z then inr (list_set data (Z.to_nat j) v)
  else inl IndexError.

(** ** DescriptorWriter: [write_describers] *)

Definition feature_lookup_t : Type := dict string (dict Z string).

(** What the loop over the views mutates: the files, the two dictionaries
    and the local variable [marker], which outlives the inner loop. *)
Record wstate : Type := {
  w_fs : filesystem;
  found_markers : dict Z nat;
  feature_lookup : feature_lookup_t;
  marker_var : option marker
}.

Section SetOrder.

(** The order in which Python iterates a [set] whose distinct elements are
    given; it is some rearrangement of them. *)
Variable set_iter : list Z -> list Z.

Definition set_iter_spec : Prop :=
  forall l, Permutation (set_iter l) l.

(** [[marker[3] for img in images for marker in images[img]]] *)
Definition all_tagids (images : images_t) : list Z :=
  flat_map (fun group => map tagid (snd group)) images.

Definition init_state (images : images_t) (lookup : lookup_t)
  (fs : filesystem) : wstate :=
  {| w_fs := fs;
     found_markers :=
       fold_left (fun d i => dict_set d i 0)
                 (set_iter (nodup Z.eq_dec (all_tagids images))) [];
     feature_lookup :=
       fold_left (fun d viewid => dict_set d viewid [])
                 (dict_values lookup) [];
     marker_var := None |}.

(** [for marker in markers: ...], with the text buffered for [feat]. *)
Fixpoint write_markers (viewid : string) (markers : list marker)
  (feat_idx : nat) (feat : string) (st : wstate) : result (string * wstate) :=
  match markers with
  | [] => inr (feat, st)
  | m :: rest =>
      seen <- of_option KeyError (dict_get (found_markers st) (tagid m)) ;;
      let found := dict_set (found_markers st) (tagid m) (seen + 1) in
      let feat' :=
        feat +++ str_join " " [feat_x m; feat_y m; feat_size m; "0" +++ nl] in
      row <- of_option KeyError (dict_get (feature_lookup st) viewid) ;;
      let fl :=
        dict_set (feature_lookup st) viewid
                 (dict_set row (tagid m) (str_of_nat feat_idx)) in
      write_markers viewid rest (S feat_idx) feat'
        {| w_fs := w_fs st; found_markers := found;
           feature_lookup := fl; marker_var := Some m |}
  end.

(** The body of [for i, img in enumerate(lookup)]. *)
Definition write_view (nd : node) (images : images_t)
  (entry : string * string) (st : wstate) : result wstate :=
  let '(img, viewid) := entry in
  let opened :=
    dict_set (dict_set (w_fs st) (feat_path nd viewid) (TextFile ""))
             (desc_path nd viewid) (BinaryFile []) in
  ' (feat, desc, st') <-
    match dict_get images img with
    | Some markers =>
        count <- struct_pack_Q (Z.of_nat (length markers)) ;;
        ' (feat, st') <- write_markers viewid markers 0 "" st ;;
        if hack nd then inr (feat, count, st')
        else
          m <- of_option UnboundLocalError (marker_var st') ;;
          data <- bytearray_setitem (bytearray 128) (tagid m) 255 ;;
          inr (feat, count ++ data, st')
    | None =>
        count <- struct_pack_Q 0 ;;
        inr ("", count, st)
    end ;;
  inr {| w_fs :=
           dict_set (dict_set opened (desc_path nd viewid) (BinaryFile desc))
                    (feat_path nd viewid) (TextFile feat);
         found_markers := found_markers st';
         feature_lookup := feature_lookup st';
         marker_var := marker_var st' |}.

Fixpoint write_views (nd : node) (images : images_t)
  (entries : list (string * string)) (st : wstate) : result wstate :=
  match entries with
  | [] => inr st
  | entry :: rest =>
      st' <- write_view nd images entry st ;;
      write_views nd images rest st'
  end.

Definition write_describers (nd : node) (images : images_t)
  (lookup : lookup_t) (fs : filesystem)
  : result (filesystem * feature_lookup_t) :=
  st <- write_views nd images lookup (init_state images lookup fs) ;;
  inr (w_fs st, feature_lookup st).

(** ** MatchEmitter: [make_matches_txt] *)

(** [itertools.combinations(values, 2)] *)
Fixpoint combinations2 {A : Type} (values : list A) : list (A * A) :=
  match values with
  | [] => []
  | x :: rest => map (pair x) rest ++ combinations2 rest
  end.

(** [tags_detected_A & tags_detected_B], as the list of its elements. *)
Definition shared_tags (row_A row_B : dict Z string) : list Z :=
  filter (dict_mem row_B) (dict_keys row_A).

Fixpoint index_lines (row_A row_B : dict Z string) (tags : list Z)
  : result (list string) :=
  match tags with
  | [] => inr []
  | t :: rest =>
      feature_index_A <- of_option KeyError (dict_get row_A t) ;;
      feature_index_B <- of_option KeyError (dict_get row_B t) ;;
      lines <- index_lines row_A row_B rest ;;
      inr (str_join " " [feature_index_A; feature_index_B] :: lines)
  end.

(** The lines one pair appends to [out_temp]. *)
Definition match_block (nd : node) (fl : feature_lookup_t)
  (view_pair : string * string) : result (list string) :=
  let '(viewid_A, viewid_B) := view_pair in
  row_A <- of_option KeyError (dict_get fl viewid_A) ;;
  row_B <- of_option KeyError (dict_get fl viewid_B) ;;
  let matched := shared_tags row_A row_B in
  match matched with
  | [] => inr []
  | _ =>
      lines <- index_lines row_A row_B (set_iter matched) ;;
      inr (str_join " " [viewid_A; viewid_B]
           :: "1"
           :: (type_value (type nd) +++ " " +++ str_of_nat (length matched))
           :: lines)
  end.

Fixpoint match_blocks (nd : node) (fl : feature_lookup_t)
  (image_pairs : list (string * string)) : result (list string) :=
  match image_pairs with
  | [] => inr []
  | view_pair :: rest =>
      block <- match_block nd fl view_pair ;;
      out_temp <- match_blocks nd fl rest ;;
      inr (block ++ out_temp)
  end.

Definition make_matches_txt (nd : node)
  (image_pairs : list (string * string)) (fl : feature_lookup_t)
  (fs : filesystem) : result filesystem :=
  out_temp <- match_blocks nd fl image_pairs ;;
  inr (dict_set fs (matches_path nd) (TextFile (str_join nl out_temp))).

(** ** [processChunk] *)

Definition delimiters_options (d : delimiter_choice) : ascii :=
  match d with
  | space => " "%char
  | tab => ascii_of_nat 9
  | comma => ","%char
  | colon => ":"%char
  | semicolon => ";"%char
  end.

(** [matches nd] is [None] when [os.path.isfile] fails. *)
Definition processChunk (nd : node) (fs : filesystem) : result filesystem :=
  match matches nd with
  | None => inl OSError
  | Some content =>
      lookup <- load_viewids (input nd) ;;
      let image_pairs := combinations2 (dict_values lookup) in
      images <- load_images content (delimiters_options (delimiter nd)) ;;
      ' (fs', fl) <- write_describers nd images lookup fs ;;
      if hack nd then make_matches_txt nd image_pairs fl fs'
      else inr fs'
  end.

End SetOrder.

(** ** The report that ends [write_describers] *)

(** ["%d" % z] *)
Definition str_of_Z (z : Z) : string :=
  DecimalString.NilZero.string_of_int (Z.to_int z).

(** ["\tFound marker %d in %d view(s)" % (marker, found_markers[marker])] *)
Definition report_line (marker : Z) (seen : nat) : string :=
  String (ascii_of_nat 9) "Found marker " +++ str_of_Z marker +++ " in "
  +++ str_of_nat seen +++ " view(s)".

(** The lines logged after the loop over the views. *)
Definition markers_report (found : dict Z nat) : list string :=
  "Markers report:"
  :: map (fun entry => report_line (fst entry) (snd entry)) found.

Definition write_describers_report (set_iter : list Z -> list Z) (nd : node)
  (images : images_t) (lookup : lookup_t) (fs : filesystem)
  : result (list string) :=
  st <- write_views nd images lookup (init_state set_iter images lookup fs) ;;
  inr (markers_report (found_markers st)).

(** * Vocabulary of the statements *)

(** The number of observations over all groups of a marker table. *)
Definition group_total (images : images_t) : nat :=
  list_sum (map (fun g => length (snd g)) images).

(** The observations of the rows naming [img], in the order of the rows. *)
Definition group_of (img : string) (csv_data : list csv_item) : list marker :=
  map snd (filter (fun item => String.eqb (fst item) img) csv_data).

(** A row with its five fields, the fourth of which [int] accepts. *)
Definition well_formed_row (row : list string) : Prop :=
  5 <= length row /\ exists z, py_int (nth 3 row "") = Some z.

(** The observation read from a row: field 2 names the image, fields 0, 1
    and 4 are kept as text, field 3 is the parsed integer. *)
Definition row_observation (row : list string) (item : csv_item) : Prop :=
  nth_error row 2 = Some (fst item) /\
  nth_error row 0 = Some (feat_x (snd item)) /\
  nth_error row 1 = Some (feat_y (snd item)) /\
  nth_error row 4 = Some (feat_size (snd item)) /\
  py_int (nth 3 row "") = Some (tagid (snd item)).

(** The key of each record of a view-set document. *)
Definition basenames (views : list view) : list string :=
  map (fun item => basename (path item)) views.

(** The [viewId] of the last record whose path has the base name [name]. *)
Definition last_view_named (name : string) (views : list view)
  : option string :=
  option_map viewId
    (find (fun item => String.eqb (basename (path item)) name) (rev views)).

(** The row of the feature index after the markers of one view have been
    written, starting from feature-row index [feat_idx]. *)
Fixpoint record_indices (row : dict Z string) (markers : list marker)
  (feat_idx : nat) : dict Z string :=
  match markers with
  | [] => row
  | m :: rest =>
      record_indices (dict_set row (tagid m) (str_of_nat feat_idx)) rest
                     (S feat_idx)
  end.

(** The dictionaries of the loop hold every key the loop will index:
    [found_markers] every markerId of the table, [feature_lookup] every
    catalogued viewId. *)
Definition state_ok (images : images_t) (lookup : lookup_t) (st : wstate)
  : Prop :=
  (forall t, In t (all_tagids images) -> In t (dict_keys (found_markers st))) /\
  (forall v, In v (dict_values lookup) ->
             In v (dict_keys (feature_lookup st))).

(** No entry of [entries] writes the two files of [viewid]. *)
Definition not_rewritten (nd : node) (viewid : string)
  (entries : list (string * string)) : Prop :=
  forall entry, In entry entries ->
    feat_path nd (snd entry) <> feat_path nd viewid /\
    desc_path nd (snd entry) <> desc_path nd viewid.

(** Every group of the table is non-empty and its size fits [struct.pack]. *)
Definition groups_ok (images : images_t) : Prop :=
  forall img group, In (img, group) images ->
    group <> [] /\ (Z.of_nat (length group) < 2 ^ 64)%Z.

(** The files once a view has been opened, written and closed. *)
Definition closed_files (nd : node) (viewid : string) (fs : filesystem)
  (feat : string) (desc : list Z) : filesystem :=
  dict_set
    (dict_set
       (dict_set (dict_set fs (feat_path nd viewid) (TextFile ""))
                 (desc_path nd viewid) (BinaryFile []))
       (desc_path nd viewid) (BinaryFile desc))
    (feat_path nd viewid) (TextFile feat).

(** The state after the view [viewid] has been processed from [st], its
    inner loop having ended in [st1]. *)
Definition view_result (nd : node) (viewid : string) (st st1 : wstate)
  (feat : string) (desc : list Z) : wstate :=
  {| w_fs := closed_files nd viewid (w_fs st) feat desc;
     found_markers := found_markers st1;
     feature_lookup := feature_lookup st1;
     marker_var := marker_var st1 |}.

(** Position [i] holds the last observation of the group with the markerId
    of [m]. *)
Definition last_occurrence (markers : list marker) (i : nat) (m : marker)
  : Prop :=
  nth_error markers i = Some m /\
  forall j m', i < j -> nth_error markers j = Some m' -> tagid m' <> tagid m.

(** The line of a match block for feature rows [i] and [j]. *)
Definition index_pair_line (i j : nat) : string :=
  str_of_nat i +++ " " +++ str_of_nat j.

(** The line of the feature file for one marker. *)
Definition feat_line (m : marker) : string :=
  str_join " " [feat_x m; feat_y m; feat_size m; "0" +++ nl].

(** The feature file of a group: one line per marker, in order. *)
Fixpoint feat_text (markers : list marker) : string :=
  match markers with
  | [] => ""
  | m :: rest => feat_line m +++ feat_text rest
  end.

(** The group of an image, empty when the table does not name it. *)
Definition group_at (images : images_t) (img : string) : list marker :=
  match dict_get images img with
  | Some group => group
  | None => []
  end.

(** The number of observations of markerId [t] in the groups of the
    catalogued images, one term per catalogue entry. *)
Definition observations (images : images_t) (lookup : lookup_t) (t : Z)
  : nat :=
  list_sum
    (map (fun entry =>
            count_occ Z.eq_dec (map tagid (group_at images (fst entry))) t)
         lookup).

(** A state with its files replaced. *)
Definition with_fs (st : wstate) (fs : filesystem) : wstate :=
  {| w_fs := fs;
     found_markers := found_markers st;
     feature_lookup := feature_lookup st;
     marker_var := marker_var st |}.

(** The directory part [posixpath.join] puts before a relative name. *)
Definition dir_prefix (dir : string) : string :=
  if (String.eqb dir "" || ends_with_sep dir)%bool then dir else dir +++ "/".

(** The bytes of a file are bytes. *)
Definition is_byte (b : Z) : Prop := (0 <= b < 256)%Z.

(** The two files of a view are on disk: a text feature file, and a binary
    descriptor file of 8 bytes or of 8 + 128 bytes, of 8 bytes in bypass
    mode. *)
Definition view_files_ok (nd : node) (viewid : string) (fs : filesystem)
  : Prop :=
  (exists text, dict_get fs (feat_path nd viewid) = Some (TextFile text)) /\
  (exists bytes,
     dict_get fs (desc_path nd viewid) = Some (BinaryFile bytes) /\
     (length bytes = 8 \/ length bytes = 8 + 128) /\
     (hack nd = true -> length bytes = 8) /\
     Forall is_byte bytes).

(** Two dictionaries that hold the same value under every key. *)
Definition same_entries {K V : Type} `{EqKey K} (d d' : dict K V) : Prop :=
  forall k, dict_get d k = dict_get d' k.

(** Two outcomes that are the same exception, or two results related by
    [R]. *)
Definition outcomes_agree {A : Type} (R : A -> A -> Prop) (r1 r2 : result A)
  : Prop :=
  match r1, r2 with
  | inl e1, inl e2 => e1 = e2
  | inr a1, inr a2 => R a1 a2
  | _, _ => False
  end.

(** Two states of the loop that differ at most in the order of the keys of
    [found_markers]. *)
Definition states_agree (st1 st2 : wstate) : Prop :=
  w_fs st1 = w_fs st2 /\
  same_entries (found_markers st1) (found_markers st2) /\
  feature_lookup st1 = feature_lookup st2 /\
  marker_var st1 = marker_var st2.

(** * Sample inputs *)

Definition sample_table : string :=
  "10,20,imgA.jpg,3,5" +++ nl +++ "30,40,imgB.jpg,3,5".

Definition sample_views : list view :=
  [ {| path := "/data/imgA.jpg"; viewId := "1" |};
    {| path := "/data/imgB.jpg"; viewId := "2" |} ].

Definition sample_node : node :=
  {| input := Some sample_views;
     matches := Some sample_table;
     hack := true;
     delimiter := comma;
     type := cctag3;
     output := "/out";
     matches_out := "/out" |}.

(** The same node with the 128-tag limit in force. *)
Definition limit_node : node :=
  {| input := Some sample_views;
     matches := Some sample_table;
     hack := false;
     delimiter := comma;
     type := cctag3;
     output := "/out";
     matches_out := "/out" |}.

Definition sample_lookup : lookup_t :=
  [("imgA.jpg", "1"); ("imgB.jpg", "2")].

Definition marker_of (x y size : string) (id : Z) : marker :=
  {| feat_x := x; feat_y := y; feat_size := size; tagid := id |}.

Definition sample_images : images_t :=
  [("imgA.jpg", [marker_of "10" "20" "5" 3]);
   ("imgB.jpg", [marker_of "30" "40" "5" 3])].

(** Marker 3 seen twice in imgA.jpg. *)
Definition repeated_images : images_t :=
  [("imgA.jpg", [marker_of "10" "20" "5" 3; marker_of "11" "21" "5" 3]);
   ("imgB.jpg", [marker_of "30" "40" "5" 3])].

(** Only imgA.jpg has markers. *)
Definition partial_images : images_t :=
  [("imgA.jpg", [marker_of "10" "20" "5" 3])].

(** A group ending in a negative markerId. *)
Definition negative_images : images_t :=
  [("imgA.jpg", [marker_of "10" "20" "5" 3; marker_of "11" "21" "5" (-5)])].

(** Groups whose last markerId is 128, and 127 after a first 200. *)
Definition images_128 : images_t :=
  [("imgA.jpg", [marker_of "10" "20" "5" 128])].

Definition images_200_127 : images_t :=
  [("imgA.jpg", [marker_of "10" "20" "5" 200; marker_of "11" "21" "5" 127])].

(** A table whose first row carries markerId 200 and whose last row of the
    same image carries markerId 5. *)
Definition table_200_5 : string :=
  "1,2,imgA.jpg,200,5" +++ nl +++ "3,4,imgA.jpg,5,5".

Definition node_200_5 : node :=
  {| input := Some sample_views;
     matches := Some table_200_5;
     hack := false;
     delimiter := comma;
     type := cctag3;
     output := "/out";
     matches_out := "/out" |}.

(** A table in which the two views have no markerId in common. *)
Definition disjoint_table : string :=
  "10,20,imgA.jpg,3,5" +++ nl +++ "30,40,imgB.jpg,4,5".

Definition disjoint_node : node :=
  {| input := Some sample_views;
     matches := Some disjoint_table;
     hack := true;
     delimiter := comma;
     type := cctag3;
     output := "/out";
     matches_out := "/out" |}.

(** The order of insertion, one admissible iteration order of a set. *)
Definition id_iter (l : list Z) : list Z := l.

(** A table with a blank line between two rows, and one whose markerId is
    no integer. *)
Definition table_blank_line : string :=
  "10,20,imgA.jpg,3,5" +++ nl +++ nl +++ "30,40,imgB.jpg,3,5".

Definition table_bad_id : string :=
  "10,20,imgA.jpg,3,5" +++ nl +++ "30,40,imgB.jpg,three,5".



(** The feature index of the sample run. *)
Definition sample_index : feature_lookup_t :=
  [("1", [(3%Z, "0")]); ("2", [(3%Z, "0")])].

(** A file that is none of the node's. *)
Definition other_files : filesystem :=
  [("/out/notes.txt", TextFile "keep"); ("/out/0.matches.txt", TextFile "old")].

(** * Properties *)

(** ** The library models at small inputs *)

Example py_int_plain : py_int "42" = Some 42%Z.
Proof. reflexivity. Qed.

Example py_int_spaces_sign : py_int " -5 " = Some (-5)%Z.
Proof. reflexivity. Qed.

Example py_int_underscore : py_int "+1_000" = Some 1000%Z.
Proof. reflexivity. Qed.

Example py_int_rejects :
  map py_int [""; "-"; "3.0"; "1__0"; "_1"; "1_"; "+-5"; "- 5"; "x"]
  = [None; None; None; None; None; None; None; None; None].
Proof. reflexivity. Qed.

Example csv_reader_sample :
  csv_reader ","%char sample_table
  = [["10"; "20"; "imgA.jpg"; "3"; "5"]; ["30"; "40"; "imgB.jpg"; "3"; "5"]].
Proof. reflexivity. Qed.

Example csv_reader_lines :
  csv_reader ";"%char ("a;b" +++ nl +++ nl +++ "c;;d" +++ String CR nl +++ "e"
                       +++ nl)
  = [["a"; "b"]; []; ["c"; ""; "d"]; ["e"]].
Proof. reflexivity. Qed.

Example basename_samples :
  map basename ["/data/imgA.jpg"; "imgA.jpg"; "dir/"; ""]
  = ["imgA.jpg"; "imgA.jpg"; ""; ""].
Proof. reflexivity. Qed.

Example os_path_join_samples :
  [os_path_join "/out" "1.cctag3.feat"; os_path_join "/out/" "x";
   os_path_join "" "x"; os_path_join "/out" "/abs"]
  = ["/out/1.cctag3.feat"; "/out/x"; "x"; "/abs"].
Proof. reflexivity. Qed.

Example struct_pack_Q_258 :
  struct_pack_Q 258 = inr [2; 1; 0; 0; 0; 0; 0; 0]%Z.
Proof. reflexivity. Qed.

Example struct_pack_Q_too_large : struct_pack_Q (2 ^ 64) = inl StructError.
Proof. reflexivity. Qed.

Example bytearray_setitem_samples :
  [bytearray_setitem (bytearray 4) 1 255; bytearray_setitem (bytearray 4) (-1) 255;
   bytearray_setitem (bytearray 4) 4 255; bytearray_setitem (bytearray 4) (-5) 255]
  = [inr [0; 255; 0; 0]%Z; inr [0; 0; 0; 255]%Z; inl IndexError; inl IndexError].
Proof. reflexivity. Qed.

Example combinations2_three :
  combinations2 ["1"; "2"; "3"] = [("1", "2"); ("1", "3"); ("2", "3")].
Proof. reflexivity. Qed.

Example load_viewids_collision :
  load_viewids (Some [ {| path := "/a/img.jpg"; viewId := "1" |};
                       {| path := "/b/other.jpg"; viewId := "2" |};
                       {| path := "/c/img.jpg"; viewId := "3" |} ])
  = inr [("img.jpg", "3"); ("other.jpg", "2")].
Proof. reflexivity. Qed.

Example load_images_short_row :
  load_images ("10,20,imgA.jpg,3" +++ nl) ","%char = inl IndexError.
Proof. reflexivity. Qed.

Example load_images_bad_id :
  load_images ("10,20,imgA.jpg,three,5" +++ nl) ","%char = inl ValueError.
Proof. reflexivity. Qed.

Example load_images_negative_id :
  load_images ("10,20,imgA.jpg,-5,7" +++ nl) ","%char
  = inr [("imgA.jpg", [marker_of "10" "20" "7" (-5)])].
Proof. reflexivity. Qed.

(** ** Facts about dictionaries *)

Section DictFacts.
Context {K V : Type} `{EqKey K}.
Implicit Types (d : dict K V) (k : K) (v : V).

Lemma keqb_refl k : keqb k k = true.
Proof. now apply keqb_spec. Qed.

Lemma keqb_neq k k' : k <> k' -> keqb k k' = false.
Proof.
  intros Hne. destruct (keqb k k') eqn:E; [|reflexivity].
  apply keqb_spec in E. contradiction.
Qed.

Lemma keqb_cases k k' :
  (keqb k k' = true /\ k = k') \/ (keqb k k' = false /\ k <> k').
Proof.
  destruct (keqb k k') eqn:E.
  - left. split; [reflexivity | now apply keqb_spec].
  - right. split; [reflexivity|]. intros ->. rewrite keqb_refl in E.
    discriminate.
Qed.

Lemma dict_get_set_eq d k v : dict_get (dict_set d k v) k = Some v.
Proof.
  induction d as [|[k' v'] r IH]; simpl.
  - now rewrite keqb_refl.
  - destruct (keqb_cases k' k) as [[E _]|[E _]]; rewrite E; simpl;
      rewrite E; auto.
Qed.

Lemma dict_get_set_ne d k k' v :
  k <> k' -> dict_get (dict_set d k v) k' = dict_get d k'.
Proof.
  intros Hne. induction d as [|[k0 v0] r IH]; simpl.
  - now rewrite keqb_neq.
  - destruct (keqb_cases k0 k) as [[E ->]|[E _]]; rewrite E; simpl.
    + now rewrite keqb_neq.
    + now rewrite IH.
Qed.

Lemma dict_get_some_key d k v : dict_get d k = Some v -> In k (dict_keys d).
Proof.
  induction d as [|[k0 v0] r IH]; simpl; [discriminate|].
  destruct (keqb_cases k0 k) as [[E ->]|[E _]]; rewrite E; auto.
Qed.

Lemma dict_key_get d k : In k (dict_keys d) -> exists v, dict_get d k = Some v.
Proof.
  induction d as [|[k0 v0] r IH]; simpl; [tauto|].
  intros Hin. destruct (keqb_cases k0 k) as [[E _]|[E Hne]]; rewrite E.
  - eauto.
  - destruct Hin as [->|Hin]; [contradiction | auto].
Qed.

Lemma dict_get_none_key d k : dict_get d k = None <-> ~ In k (dict_keys d).
Proof.
  split.
  - intros Hg Hin. apply dict_key_get in Hin as [v Hv]. congruence.
  - intros Hn. destruct (dict_get d k) eqn:E; [|reflexivity].
    apply dict_get_some_key in E. contradiction.
Qed.

Lemma dict_get_In d k v : dict_get d k = Some v -> In (k, v) d.
Proof.
  induction d as [|[k0 v0] r IH]; simpl; [discriminate|].
  destruct (keqb_cases k0 k) as [[E ->]|[E _]]; rewrite E.
  - intros [= ->]. now left.
  - auto.
Qed.

Lemma dict_keys_set_old d k v :
  In k (dict_keys d) -> dict_keys (dict_set d k v) = dict_keys d.
Proof.
  induction d as [|[k0 v0] r IH]; simpl; [tauto|].
  intros Hin. destruct (keqb_cases k0 k) as [[E _]|[E Hne]]; rewrite E; simpl.
  - reflexivity.
  - f_equal. apply IH. destruct Hin; [contradiction | assumption].
Qed.

Lemma dict_keys_set_new d k v :
  ~ In k (dict_keys d) -> dict_keys (dict_set d k v) = dict_keys d ++ [k].
Proof.
  induction d as [|[k0 v0] r IH]; simpl; [reflexivity|].
  intros Hn. destruct (keqb_cases k0 k) as [[E ->]|[E Hne]]; rewrite E; simpl.
  - tauto.
  - f_equal. apply IH. tauto.
Qed.

Lemma dict_keys_set_In d k v k' :
  In k' (dict_keys (dict_set d k v)) <-> k' = k \/ In k' (dict_keys d).
Proof.
  destruct (dict_get d k) eqn:E;
    [apply dict_get_some_key in E as Hin | apply dict_get_none_key in E as Hn].
  - rewrite dict_keys_set_old by assumption. split; [auto|].
    intros [->|]; assumption.
  - rewrite dict_keys_set_new by assumption. rewrite in_app_iff. simpl.
    split; [intros [|[|[]]]; auto | intros [|]; auto].
Qed.

Lemma dict_keys_set_NoDup d k v :
  NoDup (dict_keys d) -> NoDup (dict_keys (dict_set d k v)).
Proof.
  intros Hnd. destruct (dict_get d k) eqn:E.
  - rewrite dict_keys_set_old; [assumption|].
    eapply dict_get_some_key; eassumption.
  - apply dict_get_none_key in E. rewrite dict_keys_set_new by assumption.
    apply NoDup_app; [assumption | repeat constructor; simpl; tauto|].
    intros x Hx [<-|[]]. contradiction.
Qed.

Lemma dict_mem_true d k : dict_mem d k = true <-> In k (dict_keys d).
Proof.
  unfold dict_mem. split.
  - destruct (dict_get d k) eqn:E; [|discriminate].
    intros _. eapply dict_get_some_key; eassumption.
  - intros Hin. apply dict_key_get in Hin as [v ->]. reflexivity.
Qed.
End DictFacts.

(** ** MarkerTable *)

Lemma parse_row_well_formed row :
  well_formed_row row ->
  exists item, parse_row row = inr item /\ row_observation row item.
Proof.
  intros [Hlen [z Hz]]. unfold parse_row, getitem, row_observation.
  destruct row as [|x [|y [|img [|id [|size rest]]]]]; simpl in Hlen; try lia.
  simpl in *. rewrite Hz. simpl. eexists. split; [reflexivity|].
  simpl. repeat split.
Qed.

Lemma parse_rows_well_formed rows :
  Forall well_formed_row rows ->
  exists csv_data,
    parse_rows rows = inr csv_data /\ Forall2 row_observation rows csv_data.
Proof.
  induction 1 as [|row rest Hrow _ IH]; simpl.
  - exists []. split; [reflexivity | constructor].
  - destruct (parse_row_well_formed row Hrow) as [item [-> Hobs]].
    destruct IH as [items [-> Hall]].
    exists (item :: items). split; [reflexivity | now constructor].
Qed.

Lemma group_total_set (images : images_t) img group group' :
  dict_get images img = Some group ->
  group_total (dict_set images img group') + length group
  = group_total images + length group'.
Proof.
  unfold group_total.
  induction images as [|[k g] r IH]; simpl; [discriminate|].
  destruct (String.eqb k img) eqn:E; simpl.
  - intros [= ->]. lia.
  - intros Hg. specialize (IH Hg). lia.
Qed.

Lemma group_total_empty (d : images_t) :
  (forall k g, In (k, g) d -> g = []) -> group_total d = 0.
Proof.
  unfold group_total. induction d as [|[k g] r IH]; intros Hempty;
    [reflexivity|].
  simpl. rewrite (Hempty k g) by (left; reflexivity). simpl.
  apply IH. intros k' g' Hin. eapply Hempty. right. eassumption.
Qed.

Lemma init_groups_acc csv_data (d : images_t) :
  (forall k g, In (k, g) d -> g = []) ->
  NoDup (dict_keys d) ->
  let d' := fold_left (fun (d : images_t) (item : csv_item) =>
                         dict_set d (fst item) []) csv_data d in
  (forall k g, In (k, g) d' -> g = []) /\
  NoDup (dict_keys d') /\
  (forall img, In img (dict_keys d') <->
               In img (dict_keys d) \/ In img (map fst csv_data)).
Proof.
  revert d. induction csv_data as [|item rest IH]; simpl; intros d Hempty Hnd.
  - split; [assumption|]. split; [assumption|].
    intros img. split; [auto | intros [|[]]; assumption].
  - destruct (IH (dict_set d (fst item) [])) as [H1 [H2 H3]].
    + intros k g Hin.
      assert (Hget : forall (d0 : images_t), (forall k g, In (k, g) d0 -> g = []) ->
                forall k g, In (k, g) (dict_set d0 (fst item) []) -> g = []).
      { clear. induction d0 as [|[k0 g0] r IHr]; simpl; intros He k g.
        - intros [[= _ <-]|[]]. reflexivity.
        - destruct (String.eqb k0 (fst item)).
          + intros [[= _ <-]|Hin]; [reflexivity|]. eapply He. right. eassumption.
          + intros [[= <- <-]|Hin]; [eapply He; left; reflexivity|].
            eapply IHr; [|eassumption]. intros; eapply He; right; eassumption. }
      eapply Hget; eassumption.
    + now apply dict_keys_set_NoDup.
    + split; [assumption|]. split; [assumption|].
      intros img. rewrite H3, dict_keys_set_In.
      split; [intros [[->|]|]; auto | intros [|[<-|]]; auto].
Qed.

Lemma init_groups_spec csv_data :
  (forall k g, In (k, g) (init_groups csv_data) -> g = []) /\
  NoDup (dict_keys (init_groups csv_data)) /\
  (forall img, In img (dict_keys (init_groups csv_data)) <->
               In img (map fst csv_data)).
Proof.
  destruct (init_groups_acc csv_data []) as [Hempty [Hnd Hkeys]];
    [intros k g [] | constructor |].
  split; [exact Hempty|]. split; [exact Hnd|].
  intros img. unfold init_groups. rewrite Hkeys. simpl. tauto.
Qed.

Lemma append_items_spec todo : forall images : images_t,
  (forall item, In item todo -> In (fst item) (dict_keys images)) ->
  exists images',
    append_items todo images = inr images' /\
    dict_keys images' = dict_keys images /\
    group_total images' = group_total images + length todo /\
    (forall img group, dict_get images img = Some group ->
       dict_get images' img = Some (group ++ group_of img todo)).
Proof.
  induction todo as [|item rest IH]; simpl; intros images Hkeys.
  - exists images. repeat split; auto.
    intros img group ->. unfold group_of. simpl. now rewrite app_nil_r.
  - destruct (dict_key_get images (fst item)) as [group Hgroup]; [auto|].
    rewrite Hgroup. simpl.
    assert (Hold : dict_keys (dict_set images (fst item) (group ++ [snd item]))
                   = dict_keys images).
    { apply dict_keys_set_old. eapply dict_get_some_key; eassumption. }
    destruct (IH (dict_set images (fst item) (group ++ [snd item])))
      as [images' [Hrun [Hk [Htot Hget]]]].
    { intros it Hin. rewrite Hold. auto. }
    exists images'. split; [assumption|]. split; [congruence|]. split.
    + rewrite Htot.
      pose proof (group_total_set images (fst item) group (group ++ [snd item])
                    Hgroup) as Hs.
      rewrite length_app in Hs. simpl in Hs. lia.
    + intros img g Hg. unfold group_of. simpl.
      destruct (String.eqb (fst item) img) eqn:E.
      * apply String.eqb_eq in E. subst img.
        assert (g = group) by congruence. subst g.
        rewrite (Hget (fst item) (group ++ [snd item])).
        -- unfold group_of. simpl. now rewrite <- app_assoc.
        -- apply dict_get_set_eq.
      * apply String.eqb_neq in E. apply Hget.
        rewrite dict_get_set_ne; assumption.
Qed.

Lemma group_of_nil img csv_data :
  ~ In img (map fst csv_data) -> group_of img csv_data = [].
Proof.
  unfold group_of. induction csv_data as [|item rest IH]; simpl; [reflexivity|].
  intros Hn. destruct (String.eqb (fst item) img) eqn:E.
  - apply String.eqb_eq in E. tauto.
  - apply IH. tauto.
Qed.

Lemma group_of_cons img csv_data :
  In img (map fst csv_data) -> group_of img csv_data <> [].
Proof.
  unfold group_of. induction csv_data as [|item rest IH]; simpl; [tauto|].
  destruct (String.eqb (fst item) img) eqn:E; simpl; [discriminate|].
  apply String.eqb_neq in E. intros [|]; [contradiction | auto].
Qed.

(** What [load_images] returns on a table of well-formed rows. *)
Lemma load_images_spec :
  forall content delimiter,
    Forall well_formed_row (csv_reader delimiter content) ->
    exists csv_data images,
      load_images content delimiter = inr images /\
      Forall2 row_observation (csv_reader delimiter content) csv_data /\
      group_total images = length (csv_reader delimiter content) /\
      NoDup (dict_keys images) /\
      (forall img,
         dict_get images img =
         match group_of img csv_data with
         | [] => None
         | group => Some group
         end).
Proof.
  intros content delimiter Hwf. unfold load_images.
  destruct (parse_rows_well_formed _ Hwf) as [csv_data [-> Hobs]].
  destruct (init_groups_spec csv_data) as [Hempty [Hnd Hkeys]].
  destruct (append_items_spec csv_data (init_groups csv_data))
    as [images [Hrun [Hk [Htot Hget]]]].
  { intros item Hin. apply Hkeys. now apply in_map. }
  exists csv_data, images. split; [assumption|]. split; [assumption|].
  split; [|split].
  - rewrite Htot. apply Forall2_length in Hobs. rewrite Hobs.
    rewrite (group_total_empty _ Hempty). reflexivity.
  - rewrite Hk. assumption.
  - intros img. destruct (dict_get (init_groups csv_data) img) as [g|] eqn:E.
    + assert (g = []) by (eapply Hempty, dict_get_In; eassumption). subst g.
      rewrite (Hget img [] E). simpl.
      assert (Hin : In img (map fst csv_data)).
      { apply dict_get_some_key in E. now apply Hkeys in E. }
      apply group_of_cons in Hin.
      destruct (group_of img csv_data); [contradiction | reflexivity].
    + assert (Hn : ~ In img (map fst csv_data)).
      { intros Hin. apply dict_get_none_key in E. now apply E, Hkeys. }
      rewrite group_of_nil by assumption.
      apply dict_get_none_key. rewrite Hk. now apply dict_get_none_key.
Qed.

(** C5. When every row of the marker table is well formed, [load_images]
    succeeds; every row yields one observation whose x, y and size are the
    row's text and whose markerId is the parsed integer; the group sizes add
    up to the number of rows; and the group of an image file name is exactly
    the observations of the rows naming it, in the order of the rows (an
    image no row names has no group). *)
Theorem load_images_groups :
  forall content delimiter,
    Forall well_formed_row (csv_reader delimiter content) ->
    exists csv_data images,
      load_images content delimiter = inr images /\
      Forall2 row_observation (csv_reader delimiter content) csv_data /\
      group_total images = length (csv_reader delimiter content) /\
      NoDup (dict_keys images) /\
      (forall img,
         dict_get images img =
         match group_of img csv_data with
         | [] => None
         | group => Some group
         end).
Proof. exact load_images_spec. Qed.

Lemma dict_In_get {K V : Type} `{EqKey K} (d : dict K V) k v :
  NoDup (dict_keys d) -> In (k, v) d -> dict_get d k = Some v.
Proof.
  induction d as [|[k0 v0] r IH]; simpl; [tauto|].
  intros Hnd [[= -> ->]|Hin].
  - now rewrite keqb_refl.
  - inversion Hnd as [|x xs Hnot Hnd']; subst.
    destruct (keqb_cases k0 k) as [[_ ->]|[E _]].
    + exfalso. apply Hnot. change k with (fst (k, v)). now apply in_map.
    + rewrite E. now apply IH.
Qed.

(** The groups of a loaded table are non-empty and no longer than the
    table. *)
Lemma load_images_groups_ok content delimiter images :
  Forall well_formed_row (csv_reader delimiter content) ->
  (Z.of_nat (length (csv_reader delimiter content)) < 2 ^ 64)%Z ->
  load_images content delimiter = inr images ->
  groups_ok images.
Proof.
  intros Hwf Hlen Hrun.
  destruct (load_images_spec content delimiter Hwf)
    as [csv_data [images' [Hrun' [Hobs [_ [Hnd Hget]]]]]].
  rewrite Hrun in Hrun'. injection Hrun' as <-.
  intros img group Hin. apply (dict_In_get _ _ _ Hnd) in Hin.
  rewrite Hget in Hin.
  assert (Hle : length (group_of img csv_data) <= length csv_data).
  { unfold group_of. rewrite length_map. apply filter_length_le. }
  apply Forall2_length in Hobs.
  destruct (group_of img csv_data) as [|m0 g] eqn:Hg; [discriminate|].
  injection Hin as <-. split; [discriminate | lia].
Qed.


Lemma load_images_groups_witness :
  Forall well_formed_row (csv_reader ","%char sample_table) /\
  exists csv_data images,
    load_images sample_table ","%char = inr images /\
    Forall2 row_observation (csv_reader ","%char sample_table) csv_data /\
    group_total images = length (csv_reader ","%char sample_table) /\
    NoDup (dict_keys images) /\
    (forall img,
       dict_get images img =
       match group_of img csv_data with
       | [] => None
       | group => Some group
       end).
Proof.
  assert (Hwf : Forall well_formed_row (csv_reader ","%char sample_table)).
  { assert (Hrows : csv_reader ","%char sample_table
                    = [["10"; "20"; "imgA.jpg"; "3"; "5"];
                       ["30"; "40"; "imgB.jpg"; "3"; "5"]])
      by (vm_compute; reflexivity).
    rewrite Hrows.
    constructor; [|constructor; [|constructor]];
      (split; [simpl; lia | exists 3%Z; vm_compute; reflexivity]). }
  split; [exact Hwf | exact (load_images_groups sample_table ","%char Hwf)].
Defined.

(** ** ViewCatalog *)

Lemma load_viewids_fold views :
  load_viewids (Some views) = inr (fold_left views_step views []).
Proof. reflexivity. Qed.

Lemma views_fold_keys views : forall d : lookup_t,
  NoDup (dict_keys d) ->
  NoDup (dict_keys (fold_left views_step views d)) /\
  (forall name, In name (dict_keys (fold_left views_step views d)) <->
                In name (dict_keys d) \/ In name (basenames views)).
Proof.
  induction views as [|item rest IH]; simpl; intros d Hnd.
  - split; [assumption|]. intros name. tauto.
  - destruct (IH (views_step d item)) as [H1 H2].
    { now apply dict_keys_set_NoDup. }
    split; [assumption|]. intros name. rewrite H2. unfold views_step.
    rewrite dict_keys_set_In.
    split; [intros [[->|]|]; auto | intros [|[<-|]]; auto].
Qed.

Lemma last_view_named_cons name item rest :
  last_view_named name (item :: rest) =
  match last_view_named name rest with
  | Some v => Some v
  | None => if String.eqb (basename (path item)) name
            then Some (viewId item) else None
  end.
Proof.
  unfold last_view_named. simpl.
  induction (rev rest) as [|x r IH]; simpl.
  - destruct (String.eqb (basename (path item)) name); reflexivity.
  - destruct (String.eqb (basename (path x)) name); [reflexivity | exact IH].
Qed.

Lemma views_fold_get views : forall (d : lookup_t) name,
  dict_get (fold_left views_step views d) name =
  match last_view_named name views with
  | Some v => Some v
  | None => dict_get d name
  end.
Proof.
  induction views as [|item rest IH]; simpl; intros d name; [reflexivity|].
  rewrite IH, last_view_named_cons.
  destruct (last_view_named name rest); [reflexivity|].
  unfold views_step.
  destruct (String.eqb (basename (path item)) name) eqn:E.
  - apply String.eqb_eq in E. subst name. apply dict_get_set_eq.
  - apply String.eqb_neq in E. now apply dict_get_set_ne.
Qed.

Lemma NoDup_map_injective {A B : Type} (f : A -> B) (l : list A) a b :
  NoDup (map f l) -> In a l -> In b l -> f a = f b -> a = b.
Proof.
  induction l as [|x r IH]; simpl; [tauto|].
  intros Hnd Ha Hb Hf. inversion Hnd as [|y ys Hnotin Hnd']; subst.
  destruct Ha as [->|Ha], Hb as [->|Hb]; auto.
  - exfalso. apply Hnotin. rewrite Hf. now apply in_map.
  - exfalso. apply Hnotin. rewrite <- Hf. now apply in_map.
Qed.

Lemma last_view_named_unique views name v :
  NoDup (basenames views) ->
  (last_view_named name views = Some v <->
   exists item, In item views /\ basename (path item) = name /\
                viewId item = v).
Proof.
  intros Hnd. unfold last_view_named. split.
  - destruct (find _ (rev views)) as [item|] eqn:E; [|discriminate].
    intros [= <-]. apply find_some in E as [Hin Heq].
    exists item. rewrite <- in_rev in Hin. apply String.eqb_eq in Heq. auto.
  - intros [item [Hin [Hname Hv]]].
    destruct (find _ (rev views)) as [item'|] eqn:E.
    + apply find_some in E as [Hin' Heq]. rewrite <- in_rev in Hin'.
      apply String.eqb_eq in Heq.
      assert (item' = item).
      { eapply (NoDup_map_injective (fun i => basename (path i)));
          [exact Hnd | assumption | assumption | congruence]. }
      subst. reflexivity.
    + exfalso. eapply find_none in E; [|rewrite <- in_rev; eassumption].
      simpl in E. rewrite Hname, String.eqb_refl in E. discriminate.
Qed.

Lemma option_ext {A : Type} (o1 o2 : option A) :
  (forall v, o1 = Some v <-> o2 = Some v) -> o1 = o2.
Proof.
  intros Hext. destruct o1 as [a|], o2 as [b|]; auto.
  - now apply (proj2 (Hext b)).
  - symmetry. now apply (proj1 (Hext a)).
  - now apply (proj2 (Hext b)).
Qed.

(** C6. [load_viewids] on a document of N records returns a mapping with
    exactly N entries when the base names are pairwise distinct and with
    fewer when two base names collide; every base name is mapped to the
    [viewId] of the last record carrying it; and with distinct base names
    the value found under each key is the same for every reordering of the
    records. *)
Theorem load_viewids_catalog :
  forall views,
  exists lookup,
    load_viewids (Some views) = inr lookup /\
    NoDup (dict_keys lookup) /\
    (NoDup (basenames views) -> length lookup = length views) /\
    (~ NoDup (basenames views) -> length lookup < length views) /\
    (forall name, dict_get lookup name = last_view_named name views) /\
    (forall views' lookup',
       Permutation views views' ->
       NoDup (basenames views) ->
       load_viewids (Some views') = inr lookup' ->
       forall name, dict_get lookup' name = dict_get lookup name).
Proof.
  intros views. exists (fold_left views_step views []).
  split; [apply load_viewids_fold|].
  destruct (views_fold_keys views []) as [Hnd Hkeys]; [constructor|].
  assert (Hincl : incl (dict_keys (fold_left views_step views []))
                       (basenames views)).
  { intros name Hin. apply Hkeys in Hin as [[]|]; assumption. }
  assert (Hincl' : incl (basenames views)
                        (dict_keys (fold_left views_step views []))).
  { intros name Hin. apply Hkeys. now right. }
  assert (Hlen : length (fold_left views_step views [])
                 = length (dict_keys (fold_left views_step views []))).
  { unfold dict_keys. now rewrite length_map. }
  assert (Hlen' : length views = length (basenames views)).
  { unfold basenames. now rewrite length_map. }
  assert (Hget : forall vs name,
             dict_get (fold_left views_step vs []) name
             = last_view_named name vs).
  { intros vs name. rewrite views_fold_get.
    now destruct (last_view_named name vs). }
  split; [assumption|]. split; [|split; [|split]].
  - intros Hnb. rewrite Hlen, Hlen'. apply Permutation_length.
    apply NoDup_Permutation; [assumption | assumption|].
    intros name. split; [apply Hincl | apply Hincl'].
  - intros Hdup. rewrite Hlen, Hlen'.
    pose proof (NoDup_incl_length Hnd Hincl) as Hle.
    destruct (Nat.eq_dec (length (dict_keys (fold_left views_step views [])))
                         (length (basenames views))) as [Heq|Hne]; [|lia].
    exfalso. apply Hdup.
    apply (NoDup_incl_NoDup Hnd); [lia | assumption].
  - apply Hget.
  - intros views' lookup' Hperm Hnb Hrun name.
    rewrite load_viewids_fold in Hrun. injection Hrun as <-.
    rewrite !Hget. apply option_ext. intros v.
    assert (Hnb' : NoDup (basenames views')).
    { eapply Permutation_NoDup; [|exact Hnb].
      unfold basenames. now apply Permutation_map. }
    rewrite !last_view_named_unique by assumption.
    split; intros [item [Hin Hrest]]; exists item; split; auto.
    + eapply Permutation_in; [apply Permutation_sym|]; eassumption.
    + eapply Permutation_in; eassumption.
Qed.

Lemma load_viewids_catalog_witness :
  NoDup (basenames sample_views) /\
  exists lookup,
    load_viewids (Some sample_views) = inr lookup /\
    length lookup = length sample_views.
Proof.
  assert (Hnd : NoDup (basenames sample_views)).
  { vm_compute. repeat constructor; simpl; intuition discriminate. }
  split; [exact Hnd|].
  destruct (load_viewids_catalog sample_views) as [lookup [Hrun [_ [Hlen _]]]].
  exists lookup. split; [exact Hrun | exact (Hlen Hnd)].
Defined.

(** ** Binary encodings *)

Lemma le_bytes_length n z : length (le_bytes n z) = n.
Proof. revert z. induction n as [|n IH]; simpl; intros z; auto. Qed.

Lemma le_decode_bytes n z :
  le_decode (le_bytes n z) = (z mod 256 ^ Z.of_nat n)%Z.
Proof.
  revert z. induction n as [|n IH]; intros z.
  - simpl. now rewrite Z.mod_1_r.
  - cbn [le_bytes le_decode]. rewrite IH.
    rewrite Nat2Z.inj_succ, Z.pow_succ_r by lia.
    rewrite Z.rem_mul_r by lia. reflexivity.
Qed.

(** Byte [i] of the encoding is digit [i] of the number in base 256. *)
Lemma le_bytes_nth n : forall z i,
  i < n ->
  nth i (le_bytes n z) 0%Z = ((z / 256 ^ Z.of_nat i) mod 256)%Z.
Proof.
  induction n as [|n IH]; intros z i Hi; [lia|].
  destruct i as [|i]; cbn [le_bytes nth].
  - change (256 ^ Z.of_nat 0)%Z with 1%Z. now rewrite Z.div_1_r.
  - rewrite IH by lia. rewrite Nat2Z.inj_succ, Z.pow_succ_r by lia.
    rewrite Z.div_div by lia. reflexivity.
Qed.

Lemma le_bytes_is_byte n : forall z, Forall is_byte (le_bytes n z).
Proof.
  induction n as [|n IH]; intros z; constructor; [|apply IH].
  unfold is_byte. apply Z.mod_pos_bound. lia.
Qed.

Lemma struct_pack_Q_ok z :
  (0 <= z < 2 ^ 64)%Z ->
  struct_pack_Q z = inr (le_bytes 8 z) /\
  length (le_bytes 8 z) = 8 /\
  le_decode (le_bytes 8 z) = z.
Proof.
  intros Hz. unfold struct_pack_Q.
  replace ((0 <=? z) && (z <? 2 ^ 64))%Z with true
    by (symmetry; apply andb_true_iff; split;
        [apply Z.leb_le | apply Z.ltb_lt]; lia).
  split; [reflexivity|]. split; [apply le_bytes_length|].
  rewrite le_decode_bytes. apply Z.mod_small. simpl Z.of_nat. lia.
Qed.

Lemma list_set_length l i v : length (list_set l i v) = length l.
Proof.
  revert i. induction l as [|x r IH]; intros [|i]; simpl; auto.
Qed.

Lemma list_set_nth l i v j d :
  i < length l ->
  nth j (list_set l i v) d = if Nat.eqb j i then v else nth j l d.
Proof.
  revert i j. induction l as [|x r IH]; intros i j Hi; simpl in Hi; [lia|].
  destruct i as [|i], j as [|j]; simpl; auto.
  apply IH. lia.
Qed.

Lemma list_set_one_hot n i :
  i < n -> count_occ Z.eq_dec (list_set (repeat 0%Z n) i 255%Z) 255%Z = 1.
Proof.
  revert i. induction n as [|n IH]; intros i Hi; [lia|].
  destruct i as [|i].
  - cbn [repeat list_set]. rewrite count_occ_cons_eq by reflexivity.
    f_equal. apply count_occ_not_In. intros Hin.
    apply repeat_spec in Hin. discriminate.
  - cbn [repeat list_set]. rewrite count_occ_cons_neq by discriminate.
    apply IH. lia.
Qed.

(** The indicator block with byte [j] raised. *)
Lemma indicator_block j :
  j < 128 ->
  let block := list_set (bytearray 128) j 255%Z in
  length block = 128 /\
  count_occ Z.eq_dec block 255%Z = 1 /\
  (forall i, nth i block 0%Z = if Nat.eqb i j then 255%Z else 0%Z).
Proof.
  intros Hj block. subst block. unfold bytearray.
  split; [now rewrite list_set_length, repeat_length|].
  split; [now apply list_set_one_hot|].
  intros i. rewrite list_set_nth by (now rewrite repeat_length).
  destruct (Nat.eqb i j); [reflexivity|].
  destruct (Nat.lt_ge_cases i 128) as [Hlt|Hge].
  - apply nth_repeat_lt. assumption.
  - apply nth_overflow. now rewrite repeat_length.
Qed.

Lemma bytearray_setitem_in_range i :
  (-128 <= i < 128)%Z ->
  bytearray_setitem (bytearray 128) i 255 =
  inr (list_set (bytearray 128) (Z.to_nat (if (i <? 0)%Z then i + 128 else i)%Z)
                255%Z).
Proof.
  intros Hi. unfold bytearray_setitem, bytearray. rewrite repeat_length.
  change (Z.of_nat 128) with 128%Z.
  destruct (i <? 0)%Z eqn:E.
  - apply Z.ltb_lt in E.
    replace ((0 <=? i + 128) && (i + 128 <? 128))%Z with true; [reflexivity|].
    symmetry. apply andb_true_iff. split; [apply Z.leb_le | apply Z.ltb_lt]; lia.
  - apply Z.ltb_ge in E.
    replace ((0 <=? i) && (i <? 128))%Z with true; [reflexivity|].
    symmetry. apply andb_true_iff. split; [apply Z.leb_le | apply Z.ltb_lt]; lia.
Qed.

Lemma bytearray_setitem_out_of_range i :
  (i < -128 \/ 128 <= i)%Z ->
  bytearray_setitem (bytearray 128) i 255 = inl IndexError.
Proof.
  intros Hi. unfold bytearray_setitem, bytearray. rewrite repeat_length.
  change (Z.of_nat 128) with 128%Z.
  destruct (i <? 0)%Z eqn:E.
  - apply Z.ltb_lt in E.
    replace ((0 <=? i + 128) && (i + 128 <? 128))%Z with false; [reflexivity|].
    symmetry. apply andb_false_iff. left. apply Z.leb_gt. lia.
  - apply Z.ltb_ge in E.
    replace ((0 <=? i) && (i <? 128))%Z with false; [reflexivity|].
    symmetry. apply andb_false_iff. right. apply Z.ltb_ge. lia.
Qed.

(** ** File names *)

Lemma list_ascii_append a b :
  list_ascii_of_string (a +++ b) =
  list_ascii_of_string a ++ list_ascii_of_string b.
Proof. induction a as [|c a IH]; simpl; [reflexivity | now rewrite IH]. Qed.

Lemma os_path_join_suffix a b :
  exists p,
    list_ascii_of_string (os_path_join a b) = p ++ list_ascii_of_string b.
Proof.
  unfold os_path_join. destruct (starts_with_sep b).
  - now exists [].
  - destruct (String.eqb a "" || ends_with_sep a)%bool.
    + exists (list_ascii_of_string a). apply list_ascii_append.
    + exists (list_ascii_of_string a ++ ["/"%char]).
      rewrite !list_ascii_append. simpl. now rewrite <- app_assoc.
Qed.

Lemma feat_desc_path_ne nd v v' : feat_path nd v <> desc_path nd v'.
Proof.
  unfold feat_path, desc_path. intros Heq.
  apply (f_equal list_ascii_of_string) in Heq.
  destruct (os_path_join_suffix (output nd)
              (v +++ "." +++ type_value (type nd) +++ ".feat")) as [p Hp].
  destruct (os_path_join_suffix (output nd)
              (v' +++ "." +++ type_value (type nd) +++ ".desc")) as [p' Hp'].
  rewrite Hp, Hp' in Heq. rewrite !list_ascii_append in Heq.
  change (list_ascii_of_string ".feat")
    with ([ "."; "f"; "e"; "a" ] ++ [ "t" ])%char in Heq.
  change (list_ascii_of_string ".desc")
    with ([ "."; "d"; "e"; "s" ] ++ [ "c" ])%char in Heq.
  rewrite !app_assoc in Heq. apply app_inj_tail in Heq as [_ Heq].
  discriminate.
Qed.

(** ** The loop of [write_describers] *)

Lemma record_indices_keys markers : forall row idx t,
  In t (dict_keys (record_indices row markers idx)) <->
  In t (dict_keys row) \/ In t (map tagid markers).
Proof.
  induction markers as [|m rest IH]; simpl; intros row idx t; [tauto|].
  rewrite IH, dict_keys_set_In.
  split; [intros [[->|]|]; auto | intros [|[<-|]]; auto].
Qed.

Lemma record_indices_absent markers : forall row idx t,
  ~ In t (map tagid markers) ->
  dict_get (record_indices row markers idx) t = dict_get row t.
Proof.
  induction markers as [|m rest IH]; simpl; intros row idx t Hn; [reflexivity|].
  rewrite IH by tauto. apply dict_get_set_ne. tauto.
Qed.

Lemma record_indices_last markers : forall row idx i m,
  nth_error markers i = Some m ->
  (forall j m', i < j -> nth_error markers j = Some m' ->
                tagid m' <> tagid m) ->
  dict_get (record_indices row markers idx) (tagid m)
  = Some (str_of_nat (idx + i)).
Proof.
  induction markers as [|m0 rest IH]; intros row idx i m Hnth Hlast.
  - destruct i; discriminate.
  - destruct i as [|i]; simpl in Hnth.
    + injection Hnth as ->. simpl. rewrite record_indices_absent.
      * rewrite dict_get_set_eq. now rewrite Nat.add_0_r.
      * intros Hin. apply in_map_iff in Hin as [m' [Htag Hin]].
        apply In_nth_error in Hin as [j Hj].
        apply (Hlast (S j) m'); [lia | exact Hj | exact Htag].
    + simpl. rewrite (IH _ (S idx) i m Hnth).
      * f_equal. f_equal. lia.
      * intros j m' Hij Hj. apply (Hlast (S j) m'); [lia | exact Hj].
Qed.

Lemma last_cons_default {A : Type} (l : list A) (x d : A) :
  last l x = last (x :: l) d.
Proof.
  assert (Hany : forall (l' : list A) a d1 d2,
            last (a :: l') d1 = last (a :: l') d2).
  { induction l' as [|y r IH]; intros a d1 d2; [reflexivity|].
    change (last (y :: r) d1 = last (y :: r) d2). apply IH. }
  destruct l as [|y r]; [reflexivity|].
  change (last (y :: r) x = last (y :: r) d). apply Hany.
Qed.

Lemma write_markers_spec markers : forall viewid idx feat st feat' st',
  write_markers viewid markers idx feat st = inr (feat', st') ->
  w_fs st' = w_fs st /\
  dict_keys (found_markers st') = dict_keys (found_markers st) /\
  dict_keys (feature_lookup st') = dict_keys (feature_lookup st) /\
  marker_var st' = last (map Some markers) (marker_var st) /\
  (forall v, v <> viewid ->
     dict_get (feature_lookup st') v = dict_get (feature_lookup st) v) /\
  (forall row, dict_get (feature_lookup st) viewid = Some row ->
     dict_get (feature_lookup st') viewid
     = Some (record_indices row markers idx)).
Proof.
  induction markers as [|m rest IH]; intros viewid idx feat st feat' st' Hrun.
  - simpl in Hrun. injection Hrun as <- <-. repeat split; auto.
  - simpl in Hrun.
    destruct (dict_get (found_markers st) (tagid m)) as [seen|] eqn:Hseen;
      [|discriminate].
    destruct (dict_get (feature_lookup st) viewid) as [row0|] eqn:Hrow;
      [|discriminate].
    simpl in Hrun. apply IH in Hrun as [Hfs [Hfound [Hfl [Hvar [Hne Heq]]]]].
    simpl in Hfs, Hfound, Hfl, Hvar, Hne, Heq.
    split; [assumption|]. split; [|split; [|split; [|split]]].
    + rewrite Hfound. apply dict_keys_set_old.
      eapply dict_get_some_key; eassumption.
    + rewrite Hfl. apply dict_keys_set_old.
      eapply dict_get_some_key; eassumption.
    + rewrite Hvar. apply last_cons_default.
    + intros v Hv. rewrite Hne by assumption.
      apply dict_get_set_ne. congruence.
    + intros row Hr. assert (row = row0) by congruence. subst row.
      simpl. apply Heq. apply dict_get_set_eq.
Qed.

Lemma write_markers_succeeds markers : forall viewid idx feat st,
  (forall m, In m markers -> In (tagid m) (dict_keys (found_markers st))) ->
  In viewid (dict_keys (feature_lookup st)) ->
  exists feat' st', write_markers viewid markers idx feat st = inr (feat', st').
Proof.
  induction markers as [|m rest IH]; intros viewid idx feat st Hfound Hfl.
  - simpl. eauto.
  - simpl.
    destruct (dict_key_get (found_markers st) (tagid m)) as [seen ->];
      [apply Hfound; now left|].
    destruct (dict_key_get (feature_lookup st) viewid) as [row ->];
      [assumption|].
    simpl. apply IH; simpl.
    + intros m' Hin. apply dict_keys_set_In. right. apply Hfound. now right.
    + apply dict_keys_set_In. now right.
Qed.

Lemma closed_files_desc nd viewid fs feat desc :
  dict_get (closed_files nd viewid fs feat desc) (desc_path nd viewid)
  = Some (BinaryFile desc).
Proof.
  unfold closed_files.
  rewrite dict_get_set_ne by apply feat_desc_path_ne.
  apply dict_get_set_eq.
Qed.

Lemma closed_files_feat nd viewid fs feat desc :
  dict_get (closed_files nd viewid fs feat desc) (feat_path nd viewid)
  = Some (TextFile feat).
Proof. unfold closed_files. apply dict_get_set_eq. Qed.

Lemma closed_files_other nd viewid fs feat desc p :
  feat_path nd viewid <> p -> desc_path nd viewid <> p ->
  dict_get (closed_files nd viewid fs feat desc) p = dict_get fs p.
Proof.
  intros Hf Hd. unfold closed_files.
  now rewrite !dict_get_set_ne by assumption.
Qed.

Lemma last_some_app {A : Type} (l : list A) (x : A) (d : option A) :
  last (map Some (l ++ [x])) d = Some x.
Proof.
  rewrite map_app. simpl. apply last_last.
Qed.

(** What a successful iteration of the loop over the views did. *)
Lemma write_view_inv nd images img viewid st st' :
  write_view nd images (img, viewid) st = inr st' ->
  exists feat desc st1,
    st' = view_result nd viewid st st1 feat desc /\
    match dict_get images img with
    | None => st1 = st /\ feat = "" /\ desc = le_bytes 8 0
    | Some markers =>
        write_markers viewid markers 0 "" st = inr (feat, st1) /\
        exists count,
          struct_pack_Q (Z.of_nat (length markers)) = inr count /\
          ((hack nd = true /\ desc = count) \/
           (hack nd = false /\
            exists m data,
              marker_var st1 = Some m /\
              bytearray_setitem (bytearray 128) (tagid m) 255 = inr data /\
              desc = count ++ data))
    end.
Proof.
  unfold write_view. destruct (dict_get images img) as [markers|].
  - destruct (struct_pack_Q (Z.of_nat (length markers))) as [e|count];
      [discriminate|].
    destruct (write_markers viewid markers 0 "" st) as [e|[feat st1]];
      [discriminate|].
    destruct (hack nd) eqn:Hhack.
    + intros [= <-]. exists feat, count, st1. split; [reflexivity|].
      split; [reflexivity|]. exists count. split; [reflexivity|]. now left.
    + destruct (marker_var st1) as [m|] eqn:Hm; [|discriminate]. simpl.
      destruct (bytearray_setitem (bytearray 128) (tagid m) 255)
        as [e|data] eqn:Hdata; [discriminate|].
      intros [= <-]. exists feat, (count ++ data), st1.
      split; [reflexivity|]. split; [reflexivity|].
      exists count. split; [reflexivity|]. right. split; [reflexivity|].
      exists m, data. auto.
  - simpl. intros [= <-]. exists "", (le_bytes 8 0), st.
    split; [reflexivity|]. auto.
Qed.

Lemma write_view_keys nd images img viewid st st' :
  write_view nd images (img, viewid) st = inr st' ->
  dict_keys (found_markers st') = dict_keys (found_markers st) /\
  dict_keys (feature_lookup st') = dict_keys (feature_lookup st).
Proof.
  intros Hrun. apply write_view_inv in Hrun as [feat [desc [st1 [-> Hcase]]]].
  simpl. destruct (dict_get images img) as [markers|].
  - destruct Hcase as [Hm _]. apply write_markers_spec in Hm. tauto.
  - destruct Hcase as [-> _]. auto.
Qed.

Lemma write_view_fs_frame nd images img viewid st st' p :
  write_view nd images (img, viewid) st = inr st' ->
  feat_path nd viewid <> p -> desc_path nd viewid <> p ->
  dict_get (w_fs st') p = dict_get (w_fs st) p.
Proof.
  intros Hrun Hf Hd.
  apply write_view_inv in Hrun as [feat [desc [st1 [-> _]]]].
  simpl. now apply closed_files_other.
Qed.

Lemma write_view_index_frame nd images img viewid st st' v :
  write_view nd images (img, viewid) st = inr st' ->
  v <> viewid ->
  dict_get (feature_lookup st') v = dict_get (feature_lookup st) v.
Proof.
  intros Hrun Hv.
  apply write_view_inv in Hrun as [feat [desc [st1 [-> Hcase]]]].
  simpl. destruct (dict_get images img) as [markers|].
  - destruct Hcase as [Hm _]. apply write_markers_spec in Hm.
    destruct Hm as [_ [_ [_ [_ [Hne _]]]]]. now apply Hne.
  - destruct Hcase as [-> _]. reflexivity.
Qed.

Lemma write_view_ok nd images lookup entry st st' :
  write_view nd images entry st = inr st' ->
  state_ok images lookup st -> state_ok images lookup st'.
Proof.
  destruct entry as [img viewid]. intros Hrun [Hfound Hfl].
  apply write_view_keys in Hrun as [Hk1 Hk2].
  split; intros x Hx; [rewrite Hk1 | rewrite Hk2]; auto.
Qed.

Lemma write_views_ok nd images lookup entries : forall st st',
  write_views nd images entries st = inr st' ->
  state_ok images lookup st -> state_ok images lookup st'.
Proof.
  induction entries as [|entry rest IH]; intros st st' Hrun Hok;
    cbn [write_views] in Hrun.
  - now injection Hrun as <-.
  - destruct (write_view nd images entry st) as [e|st1] eqn:Hview;
      [discriminate|].
    eapply IH; [eassumption|]. eapply write_view_ok; eassumption.
Qed.

Lemma write_views_fs_frame nd images entries : forall st st' p,
  write_views nd images entries st = inr st' ->
  (forall entry, In entry entries ->
     feat_path nd (snd entry) <> p /\ desc_path nd (snd entry) <> p) ->
  dict_get (w_fs st') p = dict_get (w_fs st) p.
Proof.
  induction entries as [|[img v] rest IH]; intros st st' p Hrun Hnot;
    cbn [write_views] in Hrun.
  - now injection Hrun as <-.
  - destruct (write_view nd images (img, v) st) as [e|st1] eqn:Hview;
      [discriminate|].
    rewrite (IH st1 st' p Hrun) by (intros entry He; apply Hnot; now right).
    destruct (Hnot (img, v)) as [Hf Hd]; [now left|].
    eapply write_view_fs_frame; eassumption.
Qed.

Lemma write_views_index_frame nd images entries : forall st st' v,
  write_views nd images entries st = inr st' ->
  ~ In v (map snd entries) ->
  dict_get (feature_lookup st') v = dict_get (feature_lookup st) v.
Proof.
  induction entries as [|[img v0] rest IH]; intros st st' v Hrun Hnot;
    cbn [write_views] in Hrun; simpl in Hnot.
  - now injection Hrun as <-.
  - destruct (write_view nd images (img, v0) st) as [e|st1] eqn:Hview;
      [discriminate|].
    rewrite (IH st1 st' v Hrun) by tauto.
    eapply write_view_index_frame; [eassumption|]. intros ->. tauto.
Qed.

Lemma write_views_app nd images pre : forall post st st',
  write_views nd images (pre ++ post) st = inr st' <->
  exists st1, write_views nd images pre st = inr st1 /\
              write_views nd images post st1 = inr st'.
Proof.
  induction pre as [|entry pre IH]; intros post st st';
    cbn [write_views app].
  - split; [eauto | intros [st1 [[= <-] H]]; exact H].
  - destruct (write_view nd images entry st) as [e|st1]; [|apply IH].
    split; [discriminate | intros [st1 [Hx _]]; discriminate].
Qed.

Lemma write_view_no_group nd images img viewid st :
  dict_get images img = None ->
  write_view nd images (img, viewid) st
  = inr (view_result nd viewid st st "" (le_bytes 8 0)).
Proof. intros Hnone. unfold write_view. rewrite Hnone. reflexivity. Qed.

Lemma group_tagids (images : images_t) img markers m :
  dict_get images img = Some markers -> In m markers ->
  In (tagid m) (all_tagids images).
Proof.
  intros Hget Hin. unfold all_tagids. apply in_flat_map.
  exists (img, markers). split; [now apply dict_get_In|].
  simpl. now apply in_map.
Qed.

(** With every key in place, a view whose group ends in [m] is written
    unless the indicator byte of [m] cannot be raised. *)
Lemma write_view_group nd images lookup img viewid st earlier m :
  state_ok images lookup st ->
  In viewid (dict_values lookup) ->
  dict_get images img = Some (earlier ++ [m]) ->
  (Z.of_nat (length (earlier ++ [m])) < 2 ^ 64)%Z ->
  exists feat st1,
    write_markers viewid (earlier ++ [m]) 0 "" st = inr (feat, st1) /\
    write_view nd images (img, viewid) st =
    let count := le_bytes 8 (Z.of_nat (length (earlier ++ [m]))) in
    if hack nd then inr (view_result nd viewid st st1 feat count)
    else
      data <- bytearray_setitem (bytearray 128) (tagid m) 255 ;;
      inr (view_result nd viewid st st1 feat (count ++ data)).
Proof.
  intros [Hfound Hfl] Hv Hget Hlen.
  destruct (write_markers_succeeds (earlier ++ [m]) viewid 0 "" st)
    as [feat [st1 Hrun]].
  { intros m' Hin. apply Hfound. eapply group_tagids; eassumption. }
  { now apply Hfl. }
  exists feat, st1. split; [assumption|].
  unfold write_view. rewrite Hget.
  destruct (struct_pack_Q_ok (Z.of_nat (length (earlier ++ [m])))) as [-> _];
    [lia|].
  rewrite Hrun. cbv zeta. destruct (hack nd); [reflexivity|].
  apply write_markers_spec in Hrun as [_ [_ [_ [Hvar _]]]].
  rewrite last_some_app in Hvar. rewrite Hvar. simpl.
  destruct (bytearray_setitem (bytearray 128) (tagid m) 255); reflexivity.
Qed.

Lemma fold_set_keys {K V : Type} `{EqKey K} (c : V) (l : list K) :
  forall (d : dict K V) k,
    In k (dict_keys (fold_left (fun d i => dict_set d i c) l d)) <->
    In k (dict_keys d) \/ In k l.
Proof.
  induction l as [|x r IH]; simpl; intros d k; [tauto|].
  rewrite IH, dict_keys_set_In.
  split; [intros [[->|]|]; auto | intros [|[<-|]]; auto].
Qed.

Lemma fold_set_get {K V : Type} `{EqKey K} (c : V) (l : list K) :
  forall (d : dict K V) k,
    dict_get d k = Some c \/ In k l ->
    dict_get (fold_left (fun d i => dict_set d i c) l d) k = Some c.
Proof.
  induction l as [|x r IH]; simpl; intros d k Hk.
  - destruct Hk as [|[]]. assumption.
  - apply IH. destruct (keqb_cases x k) as [[_ ->]|[_ Hne]].
    + left. apply dict_get_set_eq.
    + destruct Hk as [Hk|[->|Hk]]; [left | contradiction | now right].
      now rewrite dict_get_set_ne.
Qed.

Section SetOrderFacts.

Variable set_iter : list Z -> list Z.
Hypothesis set_iter_perm : set_iter_spec set_iter.

Lemma init_state_ok images lookup fs :
  state_ok images lookup (init_state set_iter images lookup fs).
Proof.
  split; simpl.
  - intros t Hin. apply fold_set_keys. right.
    eapply Permutation_in; [apply Permutation_sym, set_iter_perm|].
    now apply nodup_In.
  - intros v Hin. apply fold_set_keys. now right.
Qed.

Lemma init_state_index images lookup fs v :
  In v (dict_values lookup) ->
  dict_get (feature_lookup (init_state set_iter images lookup fs)) v = Some [].
Proof. intros Hin. simpl. apply fold_set_get. now right. Qed.

Lemma reached_ok nd images lookup fs entries st :
  write_views nd images entries (init_state set_iter images lookup fs)
  = inr st ->
  state_ok images lookup st.
Proof.
  intros Hrun. eapply write_views_ok; [eassumption | apply init_state_ok].
Qed.

Lemma write_describers_split nd images pre entry post fs fs' fl :
  write_describers set_iter nd images (pre ++ entry :: post) fs
  = inr (fs', fl) ->
  exists st st' st_end,
    write_views nd images pre
      (init_state set_iter images (pre ++ entry :: post) fs) = inr st /\
    write_view nd images entry st = inr st' /\
    write_views nd images post st' = inr st_end /\
    fs' = w_fs st_end /\ fl = feature_lookup st_end.
Proof.
  unfold write_describers.
  destruct (write_views nd images (pre ++ entry :: post) _)
    as [e|st_end] eqn:Hrun; [discriminate|].
  intros [= <- <-]. apply write_views_app in Hrun as [st [Hpre Hrest]].
  cbn [write_views] in Hrest.
  destruct (write_view nd images entry st) as [e|st'] eqn:Hview;
    [discriminate|].
  exists st, st', st_end. auto.
Qed.

(** ** DescriptorWriter: the files of one view *)

(** A descriptor file written by the iteration of a view is there when the
    iteration ends, and still there when [write_describers] returns unless
    a later view writes the same file. *)
Lemma descriptor_persists nd images fs pre img viewid post desc :
  (forall st,
     state_ok images (pre ++ (img, viewid) :: post) st ->
     exists feat st1,
       write_view nd images (img, viewid) st
       = inr (view_result nd viewid st st1 feat desc)) ->
  (forall st,
     write_views nd images pre
       (init_state set_iter images (pre ++ (img, viewid) :: post) fs)
     = inr st ->
     exists st',
       write_view nd images (img, viewid) st = inr st' /\
       dict_get (w_fs st') (desc_path nd viewid) = Some (BinaryFile desc)) /\
  (forall fs' fl,
     write_describers set_iter nd images (pre ++ (img, viewid) :: post) fs
     = inr (fs', fl) ->
     not_rewritten nd viewid post ->
     dict_get fs' (desc_path nd viewid) = Some (BinaryFile desc)).
Proof.
  intros Hview. split.
  - intros st Hreach. apply reached_ok in Hreach.
    destruct (Hview st Hreach) as [feat [st1 Hrun]].
    eexists. split; [exact Hrun|]. simpl. apply closed_files_desc.
  - intros fs' fl Hrun Hnot.
    apply write_describers_split in Hrun
      as [st [st' [st_end [Hpre [Hstep [Hpost [-> _]]]]]]].
    apply reached_ok in Hpre.
    destruct (Hview st Hpre) as [feat [st1 Hrun]].
    rewrite Hrun in Hstep. injection Hstep as <-.
    rewrite (write_views_fs_frame _ _ _ _ _ _ Hpost).
    + simpl. apply closed_files_desc.
    + intros entry Hin. split; [apply feat_desc_path_ne|].
      now apply Hnot.
Qed.

Lemma snoc_nonempty {A : Type} (l : list A) (x : A) :
  (0 < length (l ++ [x]))%nat.
Proof. rewrite length_app. simpl. lia. Qed.

(** C2. Bypass disabled, a view whose group of k > 0 markers has all its
    markerIds in 0..127: the descriptor file is 8 + 128 bytes, the count k as
    a little-endian unsigned 64-bit integer (eight bytes, byte i being digit
    i of k in base 256) followed by a 128-byte block that is zero except for
    one byte 255 at the offset given by the markerId of the last marker of
    the group.  The file has this content when the iteration of the view
    ends, and when [write_describers] returns unless a later view writes the
    same file. *)
Theorem descriptor_one_hot_last_marker :
  forall nd images fs pre img viewid post earlier m,
    hack nd = false ->
    dict_get images img = Some (earlier ++ [m]) ->
    (Z.of_nat (length (earlier ++ [m])) < 2 ^ 64)%Z ->
    (forall m', In m' (earlier ++ [m]) -> (0 <= tagid m' <= 127)%Z) ->
    exists count block,
      (0 < length (earlier ++ [m]))%nat /\
      length count = 8 /\
      Forall is_byte count /\
      (forall i, (i < 8)%nat ->
         nth i count 0%Z
         = ((Z.of_nat (length (earlier ++ [m])) / 256 ^ Z.of_nat i)
            mod 256)%Z) /\
      le_decode count = Z.of_nat (length (earlier ++ [m])) /\
      length block = 128 /\
      length (count ++ block) = 8 + 128 /\
      count_occ Z.eq_dec block 255%Z = 1 /\
      (forall i, nth i block 0%Z
                 = if Nat.eqb i (Z.to_nat (tagid m)) then 255%Z else 0%Z) /\
      (forall st,
         write_views nd images pre
           (init_state set_iter images (pre ++ (img, viewid) :: post) fs)
         = inr st ->
         exists st',
           write_view nd images (img, viewid) st = inr st' /\
           dict_get (w_fs st') (desc_path nd viewid)
           = Some (BinaryFile (count ++ block))) /\
      (forall fs' fl,
         write_describers set_iter nd images (pre ++ (img, viewid) :: post) fs
         = inr (fs', fl) ->
         not_rewritten nd viewid post ->
         dict_get fs' (desc_path nd viewid)
         = Some (BinaryFile (count ++ block))).
Proof.
  intros nd images fs pre img viewid post earlier m Hhack Hget Hlen Hrange.
  assert (Hm : (0 <= tagid m <= 127)%Z).
  { apply Hrange. apply in_or_app. right. now left. }
  exists (le_bytes 8 (Z.of_nat (length (earlier ++ [m])))),
         (list_set (bytearray 128) (Z.to_nat (tagid m)) 255%Z).
  destruct (struct_pack_Q_ok (Z.of_nat (length (earlier ++ [m]))))
    as [_ [Hc1 Hc2]]; [lia|].
  destruct (indicator_block (Z.to_nat (tagid m))) as [Hb1 [Hb2 Hb3]]; [lia|].
  split; [apply snoc_nonempty|].
  split; [exact Hc1|]. split; [apply le_bytes_is_byte|].
  split; [intros i Hi; now apply le_bytes_nth|].
  split; [exact Hc2|]. split; [exact Hb1|].
  split; [rewrite length_app, Hc1, Hb1; reflexivity|].
  split; [exact Hb2|]. split; [exact Hb3|].
  apply descriptor_persists. intros st Hok.
  destruct (write_view_group nd images _ img viewid st earlier m Hok)
    as [feat [st1 [_ Hrun]]]; [|assumption|assumption|].
  { unfold dict_values. rewrite map_app. apply in_or_app. right. now left. }
  exists feat, st1. rewrite Hrun. cbv zeta. rewrite Hhack.
  rewrite bytearray_setitem_in_range by lia.
  replace (tagid m <? 0)%Z with false by (symmetry; apply Z.ltb_ge; lia).
  reflexivity.
Qed.

(** C8. Bypass disabled, the last observation of a view's group carrying a
    negative markerId between -128 and -1: the iteration raises nothing and
    the descriptor file holds the count followed by a block whose single
    byte 255 stands at offset 128 + markerId, as Python's negative indexing
    has it. *)
Theorem negative_marker_id_wraps :
  forall nd images fs pre img viewid post earlier m,
    hack nd = false ->
    dict_get images img = Some (earlier ++ [m]) ->
    (Z.of_nat (length (earlier ++ [m])) < 2 ^ 64)%Z ->
    (-128 <= tagid m <= -1)%Z ->
    exists count block,
      le_decode count = Z.of_nat (length (earlier ++ [m])) /\
      length block = 128 /\
      count_occ Z.eq_dec block 255%Z = 1 /\
      (forall i, nth i block 0%Z
                 = if Nat.eqb i (Z.to_nat (128 + tagid m)) then 255%Z
                   else 0%Z) /\
      (forall st,
         write_views nd images pre
           (init_state set_iter images (pre ++ (img, viewid) :: post) fs)
         = inr st ->
         exists st',
           write_view nd images (img, viewid) st = inr st' /\
           dict_get (w_fs st') (desc_path nd viewid)
           = Some (BinaryFile (count ++ block))) /\
      (forall fs' fl,
         write_describers set_iter nd images (pre ++ (img, viewid) :: post) fs
         = inr (fs', fl) ->
         not_rewritten nd viewid post ->
         dict_get fs' (desc_path nd viewid)
         = Some (BinaryFile (count ++ block))).
Proof.
  intros nd images fs pre img viewid post earlier m Hhack Hget Hlen Hm.
  exists (le_bytes 8 (Z.of_nat (length (earlier ++ [m])))),
         (list_set (bytearray 128) (Z.to_nat (128 + tagid m)) 255%Z).
  destruct (struct_pack_Q_ok (Z.of_nat (length (earlier ++ [m]))))
    as [_ [_ Hc2]]; [lia|].
  destruct (indicator_block (Z.to_nat (128 + tagid m))) as [Hb1 [Hb2 Hb3]];
    [lia|].
  split; [exact Hc2|]. split; [exact Hb1|].
  split; [exact Hb2|]. split; [exact Hb3|].
  apply descriptor_persists. intros st Hok.
  destruct (write_view_group nd images _ img viewid st earlier m Hok)
    as [feat [st1 [_ Hrun]]]; [|assumption|assumption|].
  { unfold dict_values. rewrite map_app. apply in_or_app. right. now left. }
  exists feat, st1. rewrite Hrun. cbv zeta. rewrite Hhack.
  rewrite bytearray_setitem_in_range by lia.
  replace (tagid m <? 0)%Z with true by (symmetry; apply Z.ltb_lt; lia).
  now rewrite Z.add_comm.
Qed.

(** C7. Bypass enabled, a view with k > 0 markers: the descriptor file is
    exactly the 8 bytes of the little-endian unsigned 64-bit count k (byte i
    being digit i of k in base 256), and no indicator block follows. *)
Theorem bypass_descriptor_count_only :
  forall nd images fs pre img viewid post markers,
    hack nd = true ->
    dict_get images img = Some markers ->
    (0 < length markers)%nat ->
    (Z.of_nat (length markers) < 2 ^ 64)%Z ->
    exists count,
      length count = 8 /\
      Forall is_byte count /\
      (forall i, (i < 8)%nat ->
         nth i count 0%Z
         = ((Z.of_nat (length markers) / 256 ^ Z.of_nat i) mod 256)%Z) /\
      le_decode count = Z.of_nat (length markers) /\
      (forall st,
         write_views nd images pre
           (init_state set_iter images (pre ++ (img, viewid) :: post) fs)
         = inr st ->
         exists st',
           write_view nd images (img, viewid) st = inr st' /\
           dict_get (w_fs st') (desc_path nd viewid)
           = Some (BinaryFile count)) /\
      (forall fs' fl,
         write_describers set_iter nd images (pre ++ (img, viewid) :: post) fs
         = inr (fs', fl) ->
         not_rewritten nd viewid post ->
         dict_get fs' (desc_path nd viewid) = Some (BinaryFile count)).
Proof.
  intros nd images fs pre img viewid post markers Hhack Hget Hpos Hlen.
  destruct (exists_last (l := markers)) as [earlier [m ->]].
  { intros ->. simpl in Hpos. lia. }
  exists (le_bytes 8 (Z.of_nat (length (earlier ++ [m])))).
  destruct (struct_pack_Q_ok (Z.of_nat (length (earlier ++ [m]))))
    as [_ [Hc1 Hc2]]; [lia|].
  split; [exact Hc1|]. split; [apply le_bytes_is_byte|].
  split; [intros i Hi; now apply le_bytes_nth|]. split; [exact Hc2|].
  apply descriptor_persists. intros st Hok.
  destruct (write_view_group nd images _ img viewid st earlier m Hok)
    as [feat [st1 [_ Hrun]]]; [|assumption|assumption|].
  { unfold dict_values. rewrite map_app. apply in_or_app. right. now left. }
  exists feat, st1. rewrite Hrun. cbv zeta. now rewrite Hhack.
Qed.

(** C4. A catalogued view with no group in the marker table still gets its
    two files: a descriptor file of exactly 8 bytes, all of them zero, which
    decode to 0, and a feature file of length zero.  Whenever the loop
    reaches the view its iteration returns and leaves the two files, and
    they are still there when [write_describers] returns unless a later view
    writes the same files. *)
Theorem view_without_markers_files :
  forall nd images fs pre img viewid post,
    dict_get images img = None ->
    exists bytes text,
      bytes = [0; 0; 0; 0; 0; 0; 0; 0]%Z /\
      length bytes = 8 /\
      Forall is_byte bytes /\
      le_decode (firstn 8 bytes) = 0%Z /\
      text = "" /\
      String.length text = 0 /\
      (forall st,
         exists st',
           write_view nd images (img, viewid) st = inr st' /\
           dict_get (w_fs st') (desc_path nd viewid)
           = Some (BinaryFile bytes) /\
           dict_get (w_fs st') (feat_path nd viewid) = Some (TextFile text)) /\
      (forall st,
         write_views nd images pre
           (init_state set_iter images (pre ++ (img, viewid) :: post) fs)
         = inr st ->
         exists st',
           write_views nd images (pre ++ [(img, viewid)])
             (init_state set_iter images (pre ++ (img, viewid) :: post) fs)
           = inr st' /\
           dict_get (w_fs st') (desc_path nd viewid)
           = Some (BinaryFile bytes) /\
           dict_get (w_fs st') (feat_path nd viewid) = Some (TextFile text)) /\
      (forall fs' fl,
         write_describers set_iter nd images (pre ++ (img, viewid) :: post) fs
         = inr (fs', fl) ->
         not_rewritten nd viewid post ->
         dict_get fs' (desc_path nd viewid) = Some (BinaryFile bytes) /\
         dict_get fs' (feat_path nd viewid) = Some (TextFile text)).
Proof.
  intros nd images fs pre img viewid post Hnone.
  exists (le_bytes 8 0), "".
  split; [reflexivity|]. split; [reflexivity|].
  split; [apply le_bytes_is_byte|].
  split; [reflexivity|]. split; [reflexivity|]. split; [reflexivity|].
  split; [|split].
  - intros st. eexists. split; [now apply write_view_no_group|].
    simpl. split; [apply closed_files_desc | apply closed_files_feat].
  - intros st Hpre. eexists. split.
    + apply write_views_app. exists st. split; [exact Hpre|].
      cbn [write_views]. rewrite write_view_no_group by assumption.
      reflexivity.
    + simpl. split; [apply closed_files_desc | apply closed_files_feat].
  - intros fs' fl Hrun Hnot.
    apply write_describers_split in Hrun
      as [st [st' [st_end [_ [Hstep [Hpost [-> _]]]]]]].
    rewrite write_view_no_group in Hstep by assumption.
    injection Hstep as <-.
    rewrite !(write_views_fs_frame _ _ _ _ _ _ Hpost).
    + simpl. split; [apply closed_files_desc | apply closed_files_feat].
    + intros entry Hin. split; [now apply Hnot|].
      intros Heq. symmetry in Heq. revert Heq. apply feat_desc_path_ne.
    + intros entry Hin. split; [apply feat_desc_path_ne | now apply Hnot].
Qed.

(** ** DescriptorWriter: when the run fails *)

Lemma bytearray_setitem_error data i v e :
  bytearray_setitem data i v = inl e -> e = IndexError.
Proof.
  unfold bytearray_setitem.
  destruct ((0 <=? _) && (_ <? _))%Z; [discriminate | now intros [= <-]].
Qed.

(** With every key in place and well-formed groups, an iteration of the loop
    either ends or raises [IndexError], the latter only with bypass off. *)
Lemma write_view_outcome nd images lookup img viewid st :
  groups_ok images ->
  state_ok images lookup st ->
  In viewid (dict_values lookup) ->
  (exists st', write_view nd images (img, viewid) st = inr st') \/
  (write_view nd images (img, viewid) st = inl IndexError /\
   hack nd = false /\
   exists earlier m,
     dict_get images img = Some (earlier ++ [m]) /\
     (tagid m < -128 \/ 128 <= tagid m)%Z).
Proof.
  intros Hgroups Hok Hv.
  destruct (dict_get images img) as [markers|] eqn:Hget.
  - destruct (Hgroups img markers) as [Hne Hlen]; [now apply dict_get_In|].
    destruct (exists_last Hne) as [earlier [m ->]].
    destruct (write_view_group nd images lookup img viewid st earlier m)
      as [feat [st1 [_ Hrun]]]; try assumption.
    rewrite Hrun. cbv zeta. destruct (hack nd); [left; eauto|].
    destruct (Z_lt_ge_dec (tagid m) (-128)) as [Hlow|Hlow];
      [|destruct (Z_lt_ge_dec (tagid m) 128) as [Hhigh|Hhigh]].
    + right. rewrite bytearray_setitem_out_of_range by lia.
      split; [reflexivity|]. split; [reflexivity|].
      exists earlier, m. split; [reflexivity | lia].
    + left. rewrite bytearray_setitem_in_range by lia. eauto.
    + right. rewrite bytearray_setitem_out_of_range by lia.
      split; [reflexivity|]. split; [reflexivity|].
      exists earlier, m. split; [reflexivity | lia].
  - left. rewrite write_view_no_group by assumption. eauto.
Qed.

Lemma write_views_succeed nd images lookup entries : forall st,
  groups_ok images ->
  state_ok images lookup st ->
  (forall entry, In entry entries -> In (snd entry) (dict_values lookup)) ->
  (hack nd = true \/
   forall img viewid earlier m,
     In (img, viewid) entries ->
     dict_get images img = Some (earlier ++ [m]) ->
     (-128 <= tagid m <= 127)%Z) ->
  exists st', write_views nd images entries st = inr st'.
Proof.
  induction entries as [|[img viewid] rest IH]; intros st Hgroups Hok Hin Hacc;
    cbn [write_views].
  - eauto.
  - destruct (write_view_outcome nd images lookup img viewid st Hgroups Hok)
      as [[st' Hrun]|[_ [Hhack [earlier [m [Hget Hout]]]]]].
    + apply (Hin (img, viewid)). now left.
    + rewrite Hrun. apply IH.
      * assumption.
      * eapply write_view_ok; eassumption.
      * intros entry He. apply Hin. now right.
      * destruct Hacc as [Hacc|Hacc]; [now left | right].
        intros img' v' earlier' m' He Hg.
        apply (Hacc img' v' earlier' m'); [now right | exact Hg].
    + exfalso. destruct Hacc as [Hacc|Hacc]; [congruence|].
      specialize (Hacc img viewid earlier m (or_introl eq_refl) Hget). lia.
Qed.

Lemma write_views_index_error nd images lookup pre img viewid post earlier m :
  forall st,
    groups_ok images ->
    state_ok images lookup st ->
    (forall entry, In entry (pre ++ (img, viewid) :: post) ->
                   In (snd entry) (dict_values lookup)) ->
    hack nd = false ->
    dict_get images img = Some (earlier ++ [m]) ->
    (tagid m < -128 \/ 128 <= tagid m)%Z ->
    write_views nd images (pre ++ (img, viewid) :: post) st = inl IndexError.
Proof.
  induction pre as [|[img0 v0] pre IH];
    intros st Hgroups Hok Hin Hhack Hget Hout; cbn [write_views app].
  - destruct (Hgroups img (earlier ++ [m])) as [_ Hlen];
      [now apply dict_get_In|].
    destruct (write_view_group nd images lookup img viewid st earlier m)
      as [feat [st1 [_ Hrun]]]; try assumption.
    { apply (Hin (img, viewid)). now left. }
    rewrite Hrun. cbv zeta. rewrite Hhack.
    now rewrite bytearray_setitem_out_of_range by assumption.
  - destruct (write_view_outcome nd images lookup img0 v0 st Hgroups Hok)
      as [[st' Hrun]|[Hrun _]].
    + apply (Hin (img0, v0)). now left.
    + rewrite Hrun. apply IH; try assumption.
      * eapply write_view_ok; eassumption.
      * intros entry He. apply Hin. now right.
    + now rewrite Hrun.
Qed.

(** C1, as amended.  With bypass off, a markerId of 128 or more raises
    [IndexError] when it is carried by the last observation of the group of
    a catalogued view; the run ends normally when the last observation of
    every catalogued group has its markerId within -128..127 (so with 127),
    whatever the markerIds of the earlier observations; and with bypass on
    the run ends normally for every markerId (so with 128). *)
Theorem index_error_on_last_marker :
  forall nd images lookup fs,
    groups_ok images ->
    (hack nd = false ->
     forall pre img viewid post earlier m,
       lookup = pre ++ (img, viewid) :: post ->
       dict_get images img = Some (earlier ++ [m]) ->
       (128 <= tagid m)%Z ->
       write_describers set_iter nd images lookup fs = inl IndexError) /\
    (hack nd = false ->
     (forall img viewid earlier m,
        In (img, viewid) lookup ->
        dict_get images img = Some (earlier ++ [m]) ->
        (-128 <= tagid m <= 127)%Z) ->
     exists fs' fl,
       write_describers set_iter nd images lookup fs = inr (fs', fl)) /\
    (hack nd = true ->
     exists fs' fl,
       write_describers set_iter nd images lookup fs = inr (fs', fl)).
Proof.
  intros nd images lookup fs Hgroups.
  assert (Hvalues : forall entry : string * string,
             In entry lookup -> In (snd entry) (dict_values lookup)).
  { intros entry Hin. now apply in_map. }
  pose proof (init_state_ok images lookup fs) as Hok.
  split; [|split].
  - intros Hhack pre img viewid post earlier m -> Hget Hm.
    unfold write_describers.
    rewrite (write_views_index_error nd images (pre ++ (img, viewid) :: post)
               pre img viewid post earlier m);
      [reflexivity | assumption .. | lia].
  - intros Hhack Hrange. unfold write_describers.
    destruct (write_views_succeed nd images lookup lookup _ Hgroups Hok Hvalues)
      as [st' ->]; [now right | eauto].
  - intros Hhack. unfold write_describers.
    destruct (write_views_succeed nd images lookup lookup _ Hgroups Hok Hvalues)
      as [st' ->]; [now left | eauto].
Qed.

(** ** FeatureIndex and MatchEmitter *)

Lemma last_occurrence_exists markers : forall t,
  In t (map tagid markers) ->
  exists i m, last_occurrence markers i m /\ tagid m = t.
Proof.
  induction markers as [|m0 rest IH]; simpl; intros t Hin; [tauto|].
  destruct (in_dec Z.eq_dec t (map tagid rest)) as [Hrest|Hrest].
  - destruct (IH t Hrest) as [i [m [[Hnth Hlast] Ht]]].
    exists (S i), m. split; [|assumption]. split; [exact Hnth|].
    intros [|j] m' Hlt Hj; [lia|]. simpl in Hj.
    apply (Hlast j m'); [lia | exact Hj].
  - destruct Hin as [Ht|Hin]; [|contradiction].
    exists 0, m0. split; [|assumption]. split; [reflexivity|].
    intros [|j] m' Hlt Hj; [lia|]. simpl in Hj.
    intros Heq. apply Hrest. rewrite <- Ht, <- Heq.
    apply in_map. eapply nth_error_In. eassumption.
Qed.

(** The row the feature index holds for a view once [write_describers] has
    returned, viewIds being pairwise distinct. *)
Lemma feature_index_row nd images pre img viewid post fs fs' fl :
  NoDup (dict_values (pre ++ (img, viewid) :: post)) ->
  write_describers set_iter nd images (pre ++ (img, viewid) :: post) fs
  = inr (fs', fl) ->
  dict_get fl viewid =
  Some match dict_get images img with
       | Some markers => record_indices [] markers 0
       | None => []
       end.
Proof.
  intros Hnd Hrun.
  apply write_describers_split in Hrun
    as [st [st' [st_end [Hpre [Hstep [Hpost [_ ->]]]]]]].
  unfold dict_values in Hnd. rewrite map_app in Hnd. simpl in Hnd.
  pose proof (NoDup_remove_2 _ _ _ Hnd) as Hnot.
  assert (Hst : dict_get (feature_lookup st) viewid = Some []).
  { rewrite (write_views_index_frame _ _ _ _ _ _ Hpre).
    - apply init_state_index. unfold dict_values. rewrite map_app.
      apply in_or_app. right. now left.
    - intros Hin. apply Hnot. apply in_or_app. now left. }
  rewrite (write_views_index_frame _ _ _ _ _ _ Hpost)
    by (intros Hin; apply Hnot; apply in_or_app; now right).
  apply write_view_inv in Hstep as [feat [desc [st1 [-> Hcase]]]]. simpl.
  destruct (dict_get images img) as [markers|].
  - destruct Hcase as [Hm _]. apply write_markers_spec in Hm.
    destruct Hm as [_ [_ [_ [_ [_ Heq]]]]]. now apply Heq.
  - destruct Hcase as [-> _]. exact Hst.
Qed.

Lemma Forall2_In_l {A B : Type} (R : A -> B -> Prop) l l' x :
  Forall2 R l l' -> In x l -> exists y, In y l' /\ R x y.
Proof.
  induction 1 as [|a b l l' Hab _ IH]; intros Hin; [destruct Hin|].
  destruct Hin as [->|Hin].
  - exists b. split; [now left | exact Hab].
  - destruct (IH Hin) as [y [Hy HR]]. exists y. split; [now right | exact HR].
Qed.

Lemma Forall2_In_r {A B : Type} (R : A -> B -> Prop) l l' y :
  Forall2 R l l' -> In y l' -> exists x, In x l /\ R x y.
Proof.
  induction 1 as [|a b l l' Hab _ IH]; intros Hin; [destruct Hin|].
  destruct Hin as [->|Hin].
  - exists a. split; [now left | exact Hab].
  - destruct (IH Hin) as [x [Hx HR]]. exists x. split; [now right | exact HR].
Qed.

Lemma shared_tags_In row_A row_B t :
  In t (shared_tags row_A row_B) <->
  In t (dict_keys row_A) /\ In t (dict_keys row_B).
Proof.
  unfold shared_tags. rewrite filter_In, dict_mem_true. tauto.
Qed.

Lemma index_lines_spec row_A row_B tags :
  (forall t, In t tags -> In t (dict_keys row_A) /\ In t (dict_keys row_B)) ->
  exists lines,
    index_lines row_A row_B tags = inr lines /\
    Forall2 (fun t line =>
               exists a b, dict_get row_A t = Some a /\
                           dict_get row_B t = Some b /\
                           line = a +++ " " +++ b)
            tags lines.
Proof.
  induction tags as [|t rest IH]; simpl; intros Hkeys.
  - exists []. split; [reflexivity | constructor].
  - destruct (Hkeys t (or_introl eq_refl)) as [HA HB].
    apply dict_key_get in HA as [a Ha]. apply dict_key_get in HB as [b Hb].
    rewrite Ha, Hb. simpl.
    destruct IH as [lines [-> Hall]]; [auto|].
    eexists. split; [reflexivity|]. constructor; [|exact Hall].
    exists a, b. auto.
Qed.

(** The block of a pair of views whose rows are known. *)
Lemma match_block_spec nd (fl : feature_lookup_t) vA vB row_A row_B :
  dict_get fl vA = Some row_A ->
  dict_get fl vB = Some row_B ->
  exists block,
    match_block set_iter nd fl (vA, vB) = inr block /\
    ((shared_tags row_A row_B = [] /\ block = []) \/
     (shared_tags row_A row_B <> [] /\
      exists lines,
        block = (vA +++ " " +++ vB)
                :: "1"
                :: (type_value (type nd) +++ " "
                    +++ str_of_nat (length (shared_tags row_A row_B)))
                :: lines /\
        Forall2 (fun t line =>
                   exists a b, dict_get row_A t = Some a /\
                               dict_get row_B t = Some b /\
                               line = a +++ " " +++ b)
                (set_iter (shared_tags row_A row_B)) lines)).
Proof.
  intros HA HB. unfold match_block. rewrite HA, HB. simpl.
  destruct (shared_tags row_A row_B) as [|t0 rest] eqn:Hshared.
  - exists []. split; [reflexivity | now left].
  - destruct (index_lines_spec row_A row_B (set_iter (t0 :: rest)))
      as [lines [Hrun Hall]].
    { intros t Hin. apply shared_tags_In. rewrite Hshared.
      eapply Permutation_in; [apply set_iter_perm | exact Hin]. }
    rewrite Hrun. eexists. split; [reflexivity|]. right.
    split; [discriminate|]. exists lines. split; [reflexivity | exact Hall].
Qed.

Lemma combinations2_In {A : Type} (l : list A) x y :
  In (x, y) (combinations2 l) -> In x l /\ In y l.
Proof.
  induction l as [|a r IH]; simpl; [tauto|].
  rewrite in_app_iff, in_map_iff.
  intros [[b [[= <- <-] Hb]]|Hin]; [auto | tauto].
Qed.

Lemma match_blocks_spec nd (fl : feature_lookup_t) image_pairs :
  (forall vA vB, In (vA, vB) image_pairs ->
     In vA (dict_keys fl) /\ In vB (dict_keys fl)) ->
  exists out_temp,
    match_blocks set_iter nd fl image_pairs = inr out_temp /\
    (forall view_pair, In view_pair image_pairs ->
       exists block before after,
         match_block set_iter nd fl view_pair = inr block /\
         out_temp = before ++ block ++ after) /\
    ((forall view_pair, In view_pair image_pairs ->
        match_block set_iter nd fl view_pair = inr []) ->
     out_temp = []).
Proof.
  induction image_pairs as [|[vA vB] rest IH]; cbn [match_blocks];
    intros Hkeys.
  - exists []. split; [reflexivity|]. split; [intros ? []| reflexivity].
  - destruct (Hkeys vA vB (or_introl eq_refl)) as [HA HB].
    apply dict_key_get in HA as [row_A HA].
    apply dict_key_get in HB as [row_B HB].
    destruct (match_block_spec nd fl vA vB row_A row_B HA HB)
      as [block [Hblock _]].
    rewrite Hblock.
    destruct IH as [out_rest [Hrun [Hparts Hempty]]];
      [intros x y Hxy; apply Hkeys; now right|].
    rewrite Hrun. exists (block ++ out_rest). split; [reflexivity|]. split.
    + intros view_pair [<-|Hin].
      * exists block, [], out_rest. split; [exact Hblock | reflexivity].
      * destruct (Hparts view_pair Hin) as [b [before [after [Hb ->]]]].
        exists b, (block ++ before), after. split; [exact Hb|].
        now rewrite <- app_assoc.
    + intros Hall.
      rewrite Hempty by (intros view_pair Hp; apply Hall; now right).
      rewrite (Hall (vA, vB) (or_introl eq_refl)) in Hblock.
      injection Hblock as <-. reflexivity.
Qed.

Lemma write_describers_index_keys nd images lookup fs fs' fl :
  write_describers set_iter nd images lookup fs = inr (fs', fl) ->
  forall v, In v (dict_values lookup) -> In v (dict_keys fl).
Proof.
  unfold write_describers.
  destruct (write_views nd images lookup _) as [e|st] eqn:Hrun; [discriminate|].
  intros [= _ <-]. apply reached_ok in Hrun. apply Hrun.
Qed.

Lemma record_indices_occurrence markers i m :
  last_occurrence markers i m ->
  dict_get (record_indices [] markers 0) (tagid m) = Some (str_of_nat i).
Proof.
  intros [Hnth Hlast]. now apply (record_indices_last markers [] 0 i m).
Qed.

(** C9. ViewIds being pairwise distinct, once [write_describers] has
    returned the feature index maps (viewId, markerId) to the feature-row
    index of the last observation of that markerId in the view's group; and
    for every pair of views of the exhaustive pairing the block emitted by
    [make_matches_txt] for the pair lists, for each shared markerId, the
    row indices of its last occurrences in the two groups, and no other
    line. *)
Theorem feature_index_keeps_last_occurrence :
  forall nd images lookup fs fs' fl,
    NoDup (dict_values lookup) ->
    write_describers set_iter nd images lookup fs = inr (fs', fl) ->
    (forall img viewid markers i m,
       In (img, viewid) lookup ->
       dict_get images img = Some markers ->
       last_occurrence markers i m ->
       exists row,
         dict_get fl viewid = Some row /\
         dict_get row (tagid m) = Some (str_of_nat i)) /\
    exists out_temp,
      make_matches_txt set_iter nd (combinations2 (dict_values lookup)) fl fs'
      = inr (dict_set fs' (matches_path nd) (TextFile (str_join nl out_temp)))
      /\
      forall imgA vA gA imgB vB gB,
        In (vA, vB) (combinations2 (dict_values lookup)) ->
        In (imgA, vA) lookup -> In (imgB, vB) lookup ->
        dict_get images imgA = Some gA ->
        dict_get images imgB = Some gB ->
        exists block before after,
          out_temp = before ++ block ++ after /\
          match_block set_iter nd fl (vA, vB) = inr block /\
          (forall iA mA iB mB,
             last_occurrence gA iA mA -> last_occurrence gB iB mB ->
             tagid mA = tagid mB ->
             exists lines,
               block = (vA +++ " " +++ vB) :: "1"
                       :: (type_value (type nd) +++ " "
                           +++ str_of_nat (length lines))
                       :: lines /\
               In (index_pair_line iA iB) lines) /\
          (forall line, In line (skipn 3 block) ->
             exists iA mA iB mB,
               last_occurrence gA iA mA /\ last_occurrence gB iB mB /\
               tagid mA = tagid mB /\ line = index_pair_line iA iB).
Proof.
  intros nd images lookup fs fs' fl Hnd Hrun.
  assert (Hrow : forall img viewid, In (img, viewid) lookup ->
            dict_get fl viewid =
            Some match dict_get images img with
                 | Some markers => record_indices [] markers 0
                 | None => []
                 end).
  { intros img viewid Hin. apply in_split in Hin as [pre [post ->]].
    eapply feature_index_row; eassumption. }
  split.
  { intros img viewid markers i m Hin Hget Hlast.
    eexists. split; [apply (Hrow img viewid Hin)|]. rewrite Hget.
    now apply record_indices_occurrence. }
  destruct (match_blocks_spec nd fl (combinations2 (dict_values lookup)))
    as [out_temp [Hblocks [Hparts _]]].
  { intros vA vB Hin. apply combinations2_In in Hin as [HA HB].
    split; eapply write_describers_index_keys; eassumption. }
  exists out_temp. split.
  { unfold make_matches_txt. now rewrite Hblocks. }
  intros imgA vA gA imgB vB gB Hpair HinA HinB HgA HgB.
  destruct (Hparts (vA, vB) Hpair) as [block [before [after [Hblock ->]]]].
  exists block, before, after. split; [reflexivity|].
  split; [exact Hblock|].
  pose proof (Hrow imgA vA HinA) as HrA. rewrite HgA in HrA.
  pose proof (Hrow imgB vB HinB) as HrB. rewrite HgB in HrB.
  destruct (match_block_spec nd fl vA vB _ _ HrA HrB)
    as [block' [Hblock' Hcases]].
  rewrite Hblock in Hblock'. injection Hblock' as <-.
  split.
  - intros iA mA iB mB HlA HlB Htag.
    pose proof (record_indices_occurrence gA iA mA HlA) as HoA.
    pose proof (record_indices_occurrence gB iB mB HlB) as HoB.
    assert (Hshared : In (tagid mA)
              (shared_tags (record_indices [] gA 0) (record_indices [] gB 0))).
    { apply shared_tags_In. split.
      - apply (dict_get_some_key _ _ _ HoA).
      - rewrite Htag. apply (dict_get_some_key _ _ _ HoB). }
    destruct Hcases as [[Hnil _]|[_ [lines [-> Hall]]]].
    { rewrite Hnil in Hshared. destruct Hshared. }
    exists lines. split.
    + pose proof (Forall2_length Hall) as Hlen. rewrite <- Hlen.
      now rewrite (Permutation_length (set_iter_perm _)).
    + eapply Permutation_in in Hshared;
        [|apply Permutation_sym, set_iter_perm].
      destruct (Forall2_In_l _ _ _ _ Hall Hshared)
        as [line [Hline [a [b [Ha [Hb ->]]]]]].
      rewrite HoA in Ha. rewrite Htag, HoB in Hb.
      injection Ha as <-. injection Hb as <-. exact Hline.
  - intros line Hline.
    destruct Hcases as [[_ ->]|[_ [lines [-> Hall]]]]; [destruct Hline|].
    cbn [skipn] in Hline.
    destruct (Forall2_In_r _ _ _ _ Hall Hline)
      as [t [Ht [a [b [Ha [Hb ->]]]]]].
    eapply Permutation_in in Ht; [|apply set_iter_perm].
    apply shared_tags_In in Ht as [HA HB].
    apply record_indices_keys in HA as [[]|HA].
    apply record_indices_keys in HB as [[]|HB].
    apply last_occurrence_exists in HA as [iA [mA [HlA HtA]]].
    apply last_occurrence_exists in HB as [iB [mB [HlB HtB]]].
    exists iA, mA, iB, mB. split; [exact HlA|]. split; [exact HlB|].
    split; [congruence|].
    rewrite <- HtA, (record_indices_occurrence gA iA mA HlA) in Ha.
    rewrite <- HtB, (record_indices_occurrence gB iB mB HlB) in Hb.
    injection Ha as <-. injection Hb as <-. reflexivity.
Qed.

(** ** [processChunk] in bypass mode *)

Lemma combinations2_distinct {A : Type} (l : list A) x y :
  NoDup l -> In (x, y) (combinations2 l) -> x <> y.
Proof.
  induction l as [|a r IH]; simpl; [tauto|].
  intros Hnd Hin. inversion Hnd as [|a' r' Hnot Hnd']; subst.
  apply in_app_iff in Hin as [Hin|Hin]; [|now apply IH].
  apply in_map_iff in Hin as [b [[= <- <-] Hb]].
  intros ->. contradiction.
Qed.

Lemma lookup_entry_of_value (lookup : lookup_t) v :
  In v (dict_values lookup) -> exists img, In (img, v) lookup.
Proof.
  unfold dict_values. rewrite in_map_iff.
  intros [[img v'] [Hv Hin]]. simpl in Hv. subst v'. eauto.
Qed.

(** C10. With bypass enabled and inputs that load, [processChunk] ends
    normally and has written [0.matches.txt]; when the viewIds are pairwise
    distinct and no two views have a markerId in common, the file is
    empty. *)
Theorem matches_file_always_created :
  forall nd fs views content,
    hack nd = true ->
    input nd = Some views ->
    matches nd = Some content ->
    Forall well_formed_row
           (csv_reader (delimiters_options (delimiter nd)) content) ->
    (Z.of_nat (length (csv_reader (delimiters_options (delimiter nd)) content))
     < 2 ^ 64)%Z ->
    exists fs' text,
      processChunk set_iter nd fs = inr fs' /\
      dict_get fs' (matches_path nd) = Some (TextFile text) /\
      (forall lookup images,
         load_viewids (input nd) = inr lookup ->
         load_images content (delimiters_options (delimiter nd)) = inr images ->
         NoDup (dict_values lookup) ->
         (forall imgA vA gA imgB vB gB t,
            In (imgA, vA) lookup -> In (imgB, vB) lookup -> vA <> vB ->
            dict_get images imgA = Some gA ->
            dict_get images imgB = Some gB ->
            In t (map tagid gA) -> ~ In t (map tagid gB)) ->
         text = "" /\ String.length text = 0).
Proof.
  intros nd fs views content Hhack Hinput Hmatches Hwf Hlen.
  unfold processChunk. rewrite Hmatches, Hinput.
  cbn [load_viewids]. set (lookup := fold_left views_step views []).
  destruct (load_images_spec _ _ Hwf) as [csv_data [images [Himg _]]].
  rewrite Himg.
  pose proof (load_images_groups_ok _ _ _ Hwf Hlen Himg) as Hgroups.
  assert (Hvalues : forall entry : string * string,
             In entry lookup -> In (snd entry) (dict_values lookup)).
  { intros entry Hin. now apply in_map. }
  destruct (write_views_succeed nd images lookup lookup
              (init_state set_iter images lookup fs) Hgroups
              (init_state_ok images lookup fs) Hvalues (or_introl Hhack))
    as [st Hviews].
  assert (Hdesc : write_describers set_iter nd images lookup fs
                  = inr (w_fs st, feature_lookup st)).
  { unfold write_describers. now rewrite Hviews. }
  rewrite Hdesc, Hhack.
  destruct (match_blocks_spec nd (feature_lookup st)
              (combinations2 (dict_values lookup)))
    as [out_temp [Hblocks [_ Hempty]]].
  { intros vA vB Hin. apply combinations2_In in Hin as [HA HB].
    split; eapply write_describers_index_keys; eassumption. }
  unfold make_matches_txt. rewrite Hblocks.
  exists (dict_set (w_fs st) (matches_path nd)
                   (TextFile (str_join nl out_temp))),
         (str_join nl out_temp).
  split; [reflexivity|]. split; [apply dict_get_set_eq|].
  intros lookup' images' [= <-] [= <-] Hnd Hdisjoint.
  rewrite Hempty; [split; reflexivity|].
  intros [vA vB] Hpair.
  pose proof (combinations2_distinct _ _ _ Hnd Hpair) as Hne.
  destruct (combinations2_In _ _ _ Hpair) as [HA HB].
  apply lookup_entry_of_value in HA as [imgA HA].
  apply lookup_entry_of_value in HB as [imgB HB].
  assert (Hrow : forall img viewid, In (img, viewid) lookup ->
            dict_get (feature_lookup st) viewid =
            Some match dict_get images img with
                 | Some markers => record_indices [] markers 0
                 | None => []
                 end).
  { intros img viewid Hin. apply in_split in Hin as [pre [post Hsplit]].
    rewrite Hsplit in Hdesc, Hnd. eapply feature_index_row; eassumption. }
  destruct (match_block_spec nd (feature_lookup st) vA vB _ _
              (Hrow imgA vA HA) (Hrow imgB vB HB))
    as [block [Hblock [[_ ->]|[Hshared _]]]]; [exact Hblock|].
  exfalso. apply Hshared.
  destruct (shared_tags _ _) as [|t rest] eqn:Hs; [reflexivity|].
  assert (Hin : In t (t :: rest)) by now left.
  rewrite <- Hs in Hin. apply shared_tags_In in Hin as [HtA HtB].
  destruct (dict_get images imgA) as [gA|] eqn:HgA; [|destruct HtA].
  destruct (dict_get images imgB) as [gB|] eqn:HgB; [|destruct HtB].
  apply record_indices_keys in HtA as [[]|HtA].
  apply record_indices_keys in HtB as [[]|HtB].
  exfalso. exact (Hdisjoint imgA vA gA imgB vB gB t HA HB Hne HgA HgB HtA HtB).
Qed.

(** C3. The sample table of two rows naming marker 3 in imgA.jpg and
    imgB.jpg, comma delimiter, views imgA.jpg with viewId 1 and imgB.jpg
    with viewId 2, bypass enabled, descriptor type cctag3: the match file
    holds the four lines 1 2, 1, cctag3 1 and 0 0. *)
Theorem sample_match_file :
  exists fs',
    processChunk set_iter sample_node [] = inr fs' /\
    dict_get fs' "/out/0.matches.txt"
    = Some (TextFile ("1 2" +++ nl +++ "1" +++ nl +++ "cctag3 1" +++ nl
                      +++ "0 0")).
Proof.
  assert (H3 : set_iter [3%Z] = [3%Z]).
  { apply Permutation_length_1_inv, Permutation_sym, set_iter_perm. }
  assert (Hrun : processChunk set_iter sample_node []
                 = inr [("/out/1.cctag3.feat", TextFile ("10 20 5 0" +++ nl));
                        ("/out/1.cctag3.desc", BinaryFile (le_bytes 8 1));
                        ("/out/2.cctag3.feat", TextFile ("30 40 5 0" +++ nl));
                        ("/out/2.cctag3.desc", BinaryFile (le_bytes 8 1));
                        ("/out/0.matches.txt",
                         TextFile ("1 2" +++ nl +++ "1" +++ nl +++ "cctag3 1"
                                   +++ nl +++ "0 0"))]).
  { vm_compute. rewrite !H3. vm_compute. rewrite ?H3. vm_compute.
    reflexivity. }
  rewrite Hrun. eexists. split; [reflexivity|]. vm_compute. reflexivity.
Qed.

End SetOrderFacts.

(** * The statements at sample inputs *)

Lemma id_iter_spec : set_iter_spec id_iter.
Proof. intros l. apply Permutation_refl. Qed.

Lemma sample_lookup_distinct : NoDup (dict_values sample_lookup).
Proof. repeat constructor; simpl; intuition discriminate. Qed.

Lemma sample_not_rewritten nd :
  output nd = "/out" -> type nd = cctag3 ->
  not_rewritten nd "1" [("imgB.jpg", "2")].
Proof.
  intros Hout Hty entry [<-|[]]. unfold feat_path, desc_path.
  rewrite Hout, Hty. split; vm_compute; discriminate.
Qed.

Lemma eight_bytes (l : list Z) :
  length l = 8 ->
  l = [nth 0 l 0; nth 1 l 0; nth 2 l 0; nth 3 l 0;
       nth 4 l 0; nth 5 l 0; nth 6 l 0; nth 7 l 0]%Z.
Proof.
  intros Hlen. do 8 (destruct l as [|? l]; [discriminate|]).
  destruct l; [reflexivity | discriminate].
Qed.

Lemma descriptor_one_hot_last_marker_witness :
  exists fs' fl count block,
    write_describers id_iter limit_node sample_images sample_lookup []
    = inr (fs', fl) /\
    count = [1; 0; 0; 0; 0; 0; 0; 0]%Z /\
    length (count ++ block) = 8 + 128 /\
    nth 3 block 0%Z = 255%Z /\
    dict_get fs' "/out/1.cctag3.desc" = Some (BinaryFile (count ++ block)).
Proof.
  destruct (descriptor_one_hot_last_marker id_iter id_iter_spec limit_node
              sample_images [] [] "imgA.jpg" "1" [("imgB.jpg", "2")] []
              (marker_of "10" "20" "5" 3))
    as [count [block [_ [Hc8 [_ [Hdigit [_ [_ [Hlen [_ [Hnth [_ Hfinal]]]]]]]]]]]].
  - reflexivity.
  - reflexivity.
  - reflexivity.
  - intros m' [<-|[]]. simpl. lia.
  - assert (Hrun : exists fs' fl,
               write_describers id_iter limit_node sample_images sample_lookup []
               = inr (fs', fl)) by (vm_compute; eauto).
    destruct Hrun as [fs' [fl Hrun]]. exists fs', fl, count, block.
    split; [exact Hrun|].
    split; [rewrite (eight_bytes count Hc8), !Hdigit by lia; reflexivity|].
    split; [exact Hlen|]. split; [exact (Hnth 3)|].
    exact (Hfinal fs' fl Hrun (sample_not_rewritten limit_node eq_refl eq_refl)).
Defined.

Lemma negative_marker_id_wraps_witness :
  exists fs' fl count block,
    write_describers id_iter limit_node negative_images sample_lookup []
    = inr (fs', fl) /\
    nth 123 block 0%Z = 255%Z /\
    dict_get fs' "/out/1.cctag3.desc" = Some (BinaryFile (count ++ block)).
Proof.
  destruct (negative_marker_id_wraps id_iter id_iter_spec limit_node
              negative_images [] [] "imgA.jpg" "1" [("imgB.jpg", "2")]
              [marker_of "10" "20" "5" 3] (marker_of "11" "21" "5" (-5)))
    as [count [block [_ [_ [_ [Hnth [_ Hfinal]]]]]]].
  - reflexivity.
  - reflexivity.
  - reflexivity.
  - simpl. lia.
  - assert (Hrun : exists fs' fl,
               write_describers id_iter limit_node negative_images
                 sample_lookup [] = inr (fs', fl)) by (vm_compute; eauto).
    destruct Hrun as [fs' [fl Hrun]]. exists fs', fl, count, block.
    split; [exact Hrun|]. split; [exact (Hnth 123)|].
    exact (Hfinal fs' fl Hrun (sample_not_rewritten limit_node eq_refl eq_refl)).
Defined.

Lemma bypass_descriptor_count_only_witness :
  exists fs' fl,
    write_describers id_iter sample_node sample_images sample_lookup []
    = inr (fs', fl) /\
    dict_get fs' "/out/1.cctag3.desc"
    = Some (BinaryFile [1; 0; 0; 0; 0; 0; 0; 0]%Z).
Proof.
  destruct (bypass_descriptor_count_only id_iter id_iter_spec sample_node
              sample_images [] [] "imgA.jpg" "1" [("imgB.jpg", "2")]
              [marker_of "10" "20" "5" 3])
    as [count [Hlen [_ [Hdigit [_ [_ Hfinal]]]]]].
  - reflexivity.
  - reflexivity.
  - simpl. lia.
  - reflexivity.
  - assert (Hrun : exists fs' fl,
               write_describers id_iter sample_node sample_images sample_lookup []
               = inr (fs', fl)) by (vm_compute; eauto).
    destruct Hrun as [fs' [fl Hrun]]. exists fs', fl.
    split; [exact Hrun|].
    assert (Hcount : count = [1; 0; 0; 0; 0; 0; 0; 0]%Z)
      by (rewrite (eight_bytes count Hlen), !Hdigit by lia; reflexivity).
    rewrite <- Hcount.
    exact (Hfinal fs' fl Hrun (sample_not_rewritten sample_node eq_refl eq_refl)).
Defined.

Lemma view_without_markers_files_witness :
  exists fs' fl,
    write_describers id_iter limit_node partial_images
      ([("imgA.jpg", "1")] ++ ("imgB.jpg", "2") :: []) [] = inr (fs', fl) /\
    dict_get fs' "/out/2.cctag3.desc"
    = Some (BinaryFile [0; 0; 0; 0; 0; 0; 0; 0]%Z) /\
    dict_get fs' "/out/2.cctag3.feat" = Some (TextFile "").
Proof.
  destruct (view_without_markers_files id_iter limit_node partial_images []
              [("imgA.jpg", "1")] "imgB.jpg" "2" [])
    as [bytes [text [-> [_ [_ [_ [-> [_ [_ [_ Hfinal]]]]]]]]]].
  - reflexivity.
  - assert (Hrun : exists fs' fl,
               write_describers id_iter limit_node partial_images
                 ([("imgA.jpg", "1")] ++ ("imgB.jpg", "2") :: []) []
               = inr (fs', fl)) by (vm_compute; eauto).
    destruct Hrun as [fs' [fl Hrun]]. exists fs', fl.
    split; [exact Hrun|].
    apply (Hfinal fs' fl Hrun). intros entry [].
Defined.

Lemma single_group_ok img m :
  groups_ok [(img, [m])].
Proof.
  intros img' group [[= <- <-]|[]]. split; [discriminate | reflexivity].
Qed.

Lemma pair_group_ok img m m' :
  groups_ok [(img, [m; m'])].
Proof.
  intros img' group [[= <- <-]|[]]. split; [discriminate | reflexivity].
Qed.

Lemma index_error_on_last_marker_witness :
  write_describers id_iter limit_node images_128 sample_lookup []
  = inl IndexError /\
  (exists fs' fl,
     write_describers id_iter limit_node images_200_127 sample_lookup []
     = inr (fs', fl)) /\
  (exists fs' fl,
     write_describers id_iter sample_node images_128 sample_lookup []
     = inr (fs', fl)).
Proof.
  split; [|split].
  - apply (proj1 (index_error_on_last_marker id_iter id_iter_spec limit_node
                    images_128 sample_lookup []
                    (single_group_ok _ _)) eq_refl
             [] "imgA.jpg" "1" [("imgB.jpg", "2")] []
             (marker_of "10" "20" "5" 128)).
    + reflexivity.
    + reflexivity.
    + simpl. lia.
  - apply (proj1 (proj2 (index_error_on_last_marker id_iter id_iter_spec
                           limit_node images_200_127 sample_lookup []
                           (pair_group_ok _ _ _))) eq_refl).
    intros img viewid earlier m [[= <- <-]|[[= <- <-]|[]]] Hget.
    + change (Some ([marker_of "10" "20" "5" 200]
                    ++ [marker_of "11" "21" "5" 127])
              = Some (earlier ++ [m])) in Hget.
      injection Hget as Hget.
      apply (app_inj_tail [marker_of "10" "20" "5" 200] earlier
               (marker_of "11" "21" "5" 127) m) in Hget as [_ <-].
      simpl. lia.
    + discriminate Hget.
  - apply (proj2 (proj2 (index_error_on_last_marker id_iter id_iter_spec
                           sample_node images_128 sample_lookup []
                           (single_group_ok _ _))) eq_refl).
Defined.

Lemma feature_index_keeps_last_occurrence_witness :
  exists fs' fl row,
    write_describers id_iter sample_node repeated_images sample_lookup []
    = inr (fs', fl) /\
    dict_get fl "1" = Some row /\
    dict_get row 3%Z = Some "1".
Proof.
  assert (Hrun : exists fs' fl,
             write_describers id_iter sample_node repeated_images
               sample_lookup [] = inr (fs', fl)) by (vm_compute; eauto).
  destruct Hrun as [fs' [fl Hrun]].
  destruct (feature_index_keeps_last_occurrence id_iter id_iter_spec
              sample_node repeated_images sample_lookup [] fs' fl
              sample_lookup_distinct Hrun) as [Hindex _].
  destruct (Hindex "imgA.jpg" "1"
              [marker_of "10" "20" "5" 3; marker_of "11" "21" "5" 3]
              1 (marker_of "11" "21" "5" 3))
    as [row [Hrow Hget]].
  - now left.
  - reflexivity.
  - split; [reflexivity|].
    intros [|[|[|j]]] m' Hlt Hj; try lia; discriminate Hj.
  - exists fs', fl, row. auto.
Defined.

Lemma sample_match_file_witness :
  exists fs',
    processChunk id_iter sample_node [] = inr fs' /\
    dict_get fs' "/out/0.matches.txt"
    = Some (TextFile ("1 2" +++ nl +++ "1" +++ nl +++ "cctag3 1" +++ nl
                      +++ "0 0")).
Proof. exact (sample_match_file id_iter id_iter_spec). Defined.

Lemma matches_file_always_created_witness :
  exists fs',
    processChunk id_iter disjoint_node [] = inr fs' /\
    dict_get fs' "/out/0.matches.txt" = Some (TextFile "").
Proof.
  assert (Hrows : csv_reader ","%char disjoint_table
                  = [["10"; "20"; "imgA.jpg"; "3"; "5"];
                     ["30"; "40"; "imgB.jpg"; "4"; "5"]])
    by (vm_compute; reflexivity).
  destruct (matches_file_always_created id_iter id_iter_spec disjoint_node []
              sample_views disjoint_table)
    as [fs' [text [Hrun [Hget Hempty]]]].
  - reflexivity.
  - reflexivity.
  - reflexivity.
  - change (delimiters_options (delimiter disjoint_node)) with ","%char.
    rewrite Hrows.
    constructor; [|constructor; [|constructor]];
      (split; [simpl; lia | eexists; vm_compute; reflexivity]).
  - change (delimiters_options (delimiter disjoint_node)) with ","%char.
    rewrite Hrows. reflexivity.
  - exists fs'. split; [exact Hrun|].
    destruct (Hempty sample_lookup
                [("imgA.jpg", [marker_of "10" "20" "5" 3]);
                 ("imgB.jpg", [marker_of "30" "40" "5" 4])])
      as [Htext _].
    + reflexivity.
    + vm_compute. reflexivity.
    + exact sample_lookup_distinct.
    + intros imgA vA gA imgB vB gB t HA HB Hne HgA HgB HtA HtB.
      destruct HA as [[= <- <-]|[[= <- <-]|[]]];
        destruct HB as [[= <- <-]|[[= <- <-]|[]]];
        try (now apply Hne);
        vm_compute in HgA; vm_compute in HgB;
        injection HgA as <-; injection HgB as <-;
        simpl in HtA, HtB; intuition congruence.
    + subst text. exact Hget.
Defined.

(** ** A markerId of 128 or more that raises nothing *)

(** Bypass off, markerId 200 on the first of the two rows of imgA.jpg: the
    table loads with that markerId and [processChunk] ends normally. *)
Lemma marker_200_before_last_no_error :
  hack node_200_5 = false /\
  load_images table_200_5 ","%char
  = inr [("imgA.jpg", [marker_of "1" "2" "5" 200; marker_of "3" "4" "5" 5])] /\
  (128 <= tagid (marker_of "1" "2" "5" 200))%Z /\
  (exists fs', processChunk id_iter node_200_5 [] = inr fs') /\
  processChunk id_iter node_200_5 [] <> inl IndexError.
Proof.
  split; [reflexivity|]. split; [vm_compute; reflexivity|].
  split; [simpl; lia|]. split; [vm_compute; eauto | vm_compute; discriminate].
Qed.

(** * Further properties of the node *)

(** ** [load_images]: malformed rows *)

Lemma parse_row_short row :
  length row < 5 -> parse_row row = inl IndexError.
Proof.
  intros Hlen. unfold parse_row, getitem.
  destruct row as [|x [|y [|img [|id [|size rest]]]]]; simpl in *;
    try reflexivity; lia.
Qed.

Lemma parse_row_bad_id row :
  5 <= length row -> py_int (nth 3 row "") = None ->
  parse_row row = inl ValueError.
Proof.
  intros Hlen Hid. unfold parse_row, getitem.
  destruct row as [|x [|y [|img [|id [|size rest]]]]]; simpl in Hlen; try lia.
  simpl in *. now rewrite Hid.
Qed.

Lemma parse_rows_first_bad good : forall bad rest e,
  Forall well_formed_row good ->
  parse_row bad = inl e ->
  parse_rows (good ++ bad :: rest) = inl e.
Proof.
  induction good as [|row good IH]; intros bad rest e Hgood Hbad;
    cbn [parse_rows app].
  - now rewrite Hbad.
  - inversion Hgood as [|r g Hrow Hgood']; subst.
    destruct (parse_row_well_formed row Hrow) as [item [-> _]].
    now rewrite (IH bad rest e Hgood' Hbad).
Qed.

(** X1. The first malformed row decides how [load_images] fails: a row of
    fewer than five fields (a blank line among them) raises [IndexError],
    a row of five or more fields whose fourth field is no integer raises
    [ValueError]; the rows after it are not looked at. *)
Theorem load_images_first_bad_row :
  forall content delimiter good bad rest,
    csv_reader delimiter content = good ++ bad :: rest ->
    Forall well_formed_row good ->
    (length bad < 5 -> load_images content delimiter = inl IndexError) /\
    (5 <= length bad -> py_int (nth 3 bad "") = None ->
     load_images content delimiter = inl ValueError).
Proof.
  intros content delimiter good bad rest Hrows Hgood.
  unfold load_images. rewrite Hrows. split.
  - intros Hlen.
    now rewrite (parse_rows_first_bad good bad rest IndexError Hgood
                   (parse_row_short bad Hlen)).
  - intros Hlen Hid.
    now rewrite (parse_rows_first_bad good bad rest ValueError Hgood
                   (parse_row_bad_id bad Hlen Hid)).
Qed.

(** X2. The grouping code of [load_images] cannot fail, whatever tuples
    the rows gave: [images[item[0]]] always finds its key, the keys having
    all been put in the table just before; so [load_images] returns as soon
    as every row has given its tuple.  The table returned has exactly the
    image names of the tuples as keys, each once; no group is empty; the
    group of a name holds the observations of the tuples naming it, in
    their order; and the groups hold as many observations as there are
    tuples. *)
Theorem grouping_never_fails :
  forall csv_data : list csv_item,
    exists images,
      append_items csv_data (init_groups csv_data) = inr images /\
      (forall content delimiter,
         parse_rows (csv_reader delimiter content) = inr csv_data ->
         load_images content delimiter = inr images) /\
      NoDup (dict_keys images) /\
      (forall img, In img (dict_keys images) <-> In img (map fst csv_data)) /\
      (forall img group,
         In (img, group) images ->
         group <> [] /\ group = group_of img csv_data) /\
      group_total images = length csv_data.
Proof.
  intros csv_data.
  destruct (init_groups_spec csv_data) as [Hempty [Hnd Hkeys]].
  destruct (append_items_spec csv_data (init_groups csv_data))
    as [images [Hrun [Hk [Htot Hget]]]].
  { intros item Hin. apply Hkeys. now apply in_map. }
  exists images. split; [exact Hrun|].
  split; [intros content delimiter Hrows; unfold load_images;
          now rewrite Hrows|].
  split; [now rewrite Hk|]. split; [now rewrite Hk|]. split.
  - intros img group Hin.
    assert (Hkey : In img (dict_keys (init_groups csv_data))).
    { rewrite <- Hk. change img with (fst (img, group)). now apply in_map. }
    destruct (dict_key_get _ _ Hkey) as [g0 Hg0].
    assert (g0 = []) by (eapply Hempty, dict_get_In; eassumption). subst g0.
    apply dict_In_get in Hin; [|now rewrite Hk].
    rewrite (Hget img [] Hg0) in Hin. injection Hin as <-.
    split; [|reflexivity]. apply group_of_cons. now apply Hkeys.
  - rewrite Htot, (group_total_empty _ Hempty). reflexivity.
Qed.

(** ** [write_describers]: the files it leaves *)

Lemma string_app_assoc a b c : (a +++ b) +++ c = a +++ (b +++ c).
Proof. induction a as [|x a IH]; simpl; [reflexivity | now rewrite IH]. Qed.

Lemma string_app_nil_r a : a +++ "" = a.
Proof. induction a as [|x a IH]; simpl; [reflexivity | now rewrite IH]. Qed.

Lemma write_markers_feat markers : forall viewid idx feat st feat' st',
  write_markers viewid markers idx feat st = inr (feat', st') ->
  feat' = feat +++ feat_text markers.
Proof.
  induction markers as [|m rest IH]; intros viewid idx feat st feat' st' Hrun;
    cbn [write_markers] in Hrun.
  - injection Hrun as <- _. symmetry. apply string_app_nil_r.
  - destruct (dict_get (found_markers st) (tagid m)); [|discriminate].
    destruct (dict_get (feature_lookup st) viewid); [|discriminate].
    cbn [of_option] in Hrun. apply IH in Hrun. rewrite Hrun.
    cbn [feat_text]. unfold feat_line. apply string_app_assoc.
Qed.

Lemma struct_pack_Q_inv z count :
  struct_pack_Q z = inr count ->
  count = le_bytes 8 z /\ (0 <= z < 2 ^ 64)%Z.
Proof.
  unfold struct_pack_Q.
  destruct ((0 <=? z) && (z <? 2 ^ 64))%Z eqn:E; [|discriminate].
  intros [= <-]. apply andb_true_iff in E as [E1 E2].
  apply Z.leb_le in E1. apply Z.ltb_lt in E2. auto.
Qed.

Lemma firstn_count (count data : list Z) :
  length count = 8 -> firstn 8 (count ++ data) = count.
Proof.
  intros Hlen. rewrite firstn_app, Hlen.
  change (8 - 8) with 0. rewrite firstn_O, app_nil_r.
  apply firstn_all2. lia.
Qed.

Lemma group_at_some (images : images_t) img markers :
  dict_get images img = Some markers -> group_at images img = markers.
Proof. unfold group_at. now intros ->. Qed.

Lemma group_at_none (images : images_t) img :
  dict_get images img = None -> group_at images img = [].
Proof. unfold group_at. now intros ->. Qed.

Lemma list_set_bytes l : forall i v,
  Forall is_byte l -> is_byte v -> Forall is_byte (list_set l i v).
Proof.
  induction l as [|x r IH]; intros i v Hl Hv; [destruct i; constructor|].
  inversion Hl as [|y ys Hx Hr]; subst.
  destruct i as [|i]; cbn [list_set]; constructor; auto.
Qed.

Lemma bytearray_setitem_shape n i data :
  bytearray_setitem (bytearray n) i 255 = inr data ->
  length data = n /\ Forall is_byte data.
Proof.
  unfold bytearray_setitem.
  destruct ((0 <=? _) && (_ <? _))%Z; [|discriminate].
  intros [= <-]. split.
  - rewrite list_set_length. apply repeat_length.
  - apply list_set_bytes; [|unfold is_byte; lia].
    apply Forall_forall. intros x Hx. apply repeat_spec in Hx. subst x.
    unfold is_byte. lia.
Qed.

(** The files a successful iteration leaves for its view. *)
Lemma write_view_files nd images img viewid st st' :
  write_view nd images (img, viewid) st = inr st' ->
  exists bytes,
    w_fs st' = closed_files nd viewid (w_fs st)
                 (feat_text (group_at images img)) bytes /\
    le_decode (firstn 8 bytes) = Z.of_nat (length (group_at images img)) /\
    (length bytes = 8 \/ length bytes = 8 + 128) /\
    (hack nd = true -> length bytes = 8) /\
    Forall is_byte bytes.
Proof.
  intros Hrun. apply write_view_inv in Hrun as [feat [desc [st1 [-> Hcase]]]].
  exists desc. cbn [w_fs view_result].
  assert (Hbytes : forall n z, Forall is_byte (le_bytes n z)).
  { induction n as [|n IH]; intros z; constructor; [|apply IH].
    unfold is_byte. apply Z.mod_pos_bound. lia. }
  destruct (dict_get images img) as [markers|] eqn:Hget.
  - rewrite (group_at_some _ _ _ Hget).
    destruct Hcase as [Hm [count [Hpack Hdesc]]].
    apply write_markers_feat in Hm. simpl in Hm. subst feat.
    apply struct_pack_Q_inv in Hpack as [-> Hk].
    destruct (struct_pack_Q_ok _ Hk) as [_ [Hlen Hdec]].
    destruct Hdesc as [[Hhack ->]|[Hhack [m [data [_ [Hdata ->]]]]]].
    + split; [reflexivity|]. split.
      { rewrite <- (app_nil_r (le_bytes 8 _)), firstn_count by assumption.
        exact Hdec. }
      split; [now left|]. split; [auto|]. apply Hbytes.
    + destruct (bytearray_setitem_shape _ _ _ Hdata) as [Hl Hb].
      split; [reflexivity|]. split; [now rewrite firstn_count|].
      split; [right; rewrite length_app; lia|].
      split; [congruence|]. apply Forall_app. split; [apply Hbytes | exact Hb].
  - rewrite (group_at_none _ _ Hget). destruct Hcase as [_ [-> ->]].
    split; [reflexivity|]. split; [reflexivity|].
    split; [now left|]. split; [reflexivity|]. apply Hbytes.
Qed.

(** X3. When [write_describers] returns, the feature file of a catalogued
    view holds one line [x y size 0] per marker of the view's group, in the
    order of the group, and the first 8 bytes of its descriptor file decode
    to the number of those lines (no line and 0 for a view without group),
    unless a later view wrote the same files. *)
Theorem feature_file_matches_count :
  forall set_iter nd images fs pre img viewid post fs' fl,
    write_describers set_iter nd images (pre ++ (img, viewid) :: post) fs
    = inr (fs', fl) ->
    not_rewritten nd viewid post ->
    dict_get fs' (feat_path nd viewid)
    = Some (TextFile (feat_text (group_at images img))) /\
    exists bytes,
      dict_get fs' (desc_path nd viewid) = Some (BinaryFile bytes) /\
      le_decode (firstn 8 bytes) = Z.of_nat (length (group_at images img)).
Proof.
  intros set_iter nd images fs pre img viewid post fs' fl Hrun Hnot.
  apply write_describers_split in Hrun
    as [st [st' [st_end [_ [Hstep [Hpost [-> _]]]]]]].
  apply write_view_files in Hstep as [bytes [Hfs [Hdec _]]].
  rewrite !(write_views_fs_frame _ _ _ _ _ _ Hpost).
  - rewrite Hfs. split; [apply closed_files_feat|].
    exists bytes. split; [apply closed_files_desc | exact Hdec].
  - intros entry Hin. split; [apply feat_desc_path_ne | now apply Hnot].
  - intros entry Hin. split; [now apply Hnot|].
    intros Heq. symmetry in Heq. revert Heq. apply feat_desc_path_ne.
Qed.

(** X4. [write_describers] changes no file other than the feature and
    descriptor files of the catalogued views. *)
Theorem write_describers_other_files_untouched :
  forall set_iter nd images lookup fs fs' fl p,
    write_describers set_iter nd images lookup fs = inr (fs', fl) ->
    (forall entry, In entry lookup ->
       feat_path nd (snd entry) <> p /\ desc_path nd (snd entry) <> p) ->
    dict_get fs' p = dict_get fs p.
Proof.
  intros set_iter nd images lookup fs fs' fl p Hrun Hother.
  unfold write_describers in Hrun.
  destruct (write_views nd images lookup _) as [e|st] eqn:Hviews;
    [discriminate|].
  injection Hrun as <- _.
  now rewrite (write_views_fs_frame _ _ _ _ _ _ Hviews Hother).
Qed.

Lemma view_files_ok_written nd viewid fs text bytes :
  (length bytes = 8 \/ length bytes = 8 + 128) ->
  (hack nd = true -> length bytes = 8) ->
  Forall is_byte bytes ->
  view_files_ok nd viewid (closed_files nd viewid fs text bytes).
Proof.
  intros Hlen Hhack Hb. split.
  - exists text. apply closed_files_feat.
  - exists bytes. split; [apply closed_files_desc | auto].
Qed.

Lemma view_files_ok_kept nd v v' fs text bytes :
  (length bytes = 8 \/ length bytes = 8 + 128) ->
  (hack nd = true -> length bytes = 8) ->
  Forall is_byte bytes ->
  view_files_ok nd v fs ->
  view_files_ok nd v (closed_files nd v' fs text bytes).
Proof.
  intros Hlen Hhack Hb [[t Hf] [b [Hd Hshape]]]. split.
  - destruct (string_dec (feat_path nd v') (feat_path nd v)) as [Heq|Hne].
    + exists text. rewrite <- Heq. apply closed_files_feat.
    + exists t. rewrite closed_files_other; [exact Hf | exact Hne|].
      intros Heq. symmetry in Heq. revert Heq. apply feat_desc_path_ne.
  - destruct (string_dec (desc_path nd v') (desc_path nd v)) as [Heq|Hne].
    + exists bytes. rewrite <- Heq. split; [apply closed_files_desc | auto].
    + exists b. rewrite closed_files_other;
        [auto | apply feat_desc_path_ne | exact Hne].
Qed.

Lemma write_views_files_ok nd images entries : forall st st',
  write_views nd images entries st = inr st' ->
  (forall v, view_files_ok nd v (w_fs st) -> view_files_ok nd v (w_fs st')) /\
  (forall entry, In entry entries -> view_files_ok nd (snd entry) (w_fs st')).
Proof.
  induction entries as [|[img v0] rest IH]; intros st st' Hrun;
    cbn [write_views] in Hrun.
  - injection Hrun as <-. split; [auto | intros ? []].
  - destruct (write_view nd images (img, v0) st) as [e|st1] eqn:Hview;
      [discriminate|].
    apply write_view_files in Hview as [bytes [Hfs [_ [Hlen [Hhack Hb]]]]].
    destruct (IH st1 st' Hrun) as [Hkeep Hall]. split.
    + intros v Hv. apply Hkeep. rewrite Hfs.
      now apply view_files_ok_kept.
    + intros entry [<-|Hin]; [|now apply Hall].
      apply Hkeep. rewrite Hfs. now apply view_files_ok_written.
Qed.

(** X5. When [write_describers] returns, every catalogued view has its two
    files on disk: a text feature file and a binary descriptor file whose
    bytes are all in 0..255 and whose length is 8 or 8 + 128, and 8 in
    bypass mode.  This holds also when several views share a file. *)
Theorem every_view_has_its_files :
  forall set_iter nd images lookup fs fs' fl,
    write_describers set_iter nd images lookup fs = inr (fs', fl) ->
    forall img viewid, In (img, viewid) lookup ->
      view_files_ok nd viewid fs'.
Proof.
  intros set_iter nd images lookup fs fs' fl Hrun img viewid Hin.
  unfold write_describers in Hrun.
  destruct (write_views nd images lookup _) as [e|st] eqn:Hviews;
    [discriminate|].
  injection Hrun as <- _.
  apply (proj2 (write_views_files_ok _ _ _ _ _ Hviews) (img, viewid) Hin).
Qed.

(** ** [write_describers]: the feature index and the report *)

Lemma fold_set_keys_fresh {K V : Type} `{EqKey K} (c : V) (l : list K) :
  forall d : dict K V,
    NoDup (dict_keys d ++ l) ->
    dict_keys (fold_left (fun d k => dict_set d k c) l d) = dict_keys d ++ l.
Proof.
  induction l as [|x r IH]; intros d Hnd; cbn [fold_left].
  - now rewrite app_nil_r.
  - assert (Hx : ~ In x (dict_keys d)).
    { intros Hin. apply NoDup_remove_2 in Hnd. apply Hnd.
      apply in_or_app. now left. }
    rewrite IH; rewrite dict_keys_set_new by assumption.
    + now rewrite <- app_assoc.
    + now rewrite <- app_assoc.
Qed.

Lemma fold_set_keys_NoDup {K V : Type} `{EqKey K} (c : V) (l : list K) :
  forall d : dict K V,
    NoDup (dict_keys d) ->
    NoDup (dict_keys (fold_left (fun d k => dict_set d k c) l d)).
Proof.
  induction l as [|x r IH]; intros d Hnd; cbn [fold_left]; [assumption|].
  apply IH. now apply dict_keys_set_NoDup.
Qed.

Lemma write_views_keys nd images entries : forall st st',
  write_views nd images entries st = inr st' ->
  dict_keys (found_markers st') = dict_keys (found_markers st) /\
  dict_keys (feature_lookup st') = dict_keys (feature_lookup st).
Proof.
  induction entries as [|[img v] rest IH]; intros st st' Hrun;
    cbn [write_views] in Hrun.
  - injection Hrun as <-. auto.
  - destruct (write_view nd images (img, v) st) as [e|st1] eqn:Hview;
      [discriminate|].
    apply write_view_keys in Hview as [H1 H2].
    destruct (IH st1 st' Hrun) as [H3 H4]. split; congruence.
Qed.

Lemma record_indices_NoDup markers : forall row idx,
  NoDup (dict_keys row) -> NoDup (dict_keys (record_indices row markers idx)).
Proof.
  induction markers as [|m rest IH]; intros row idx Hnd;
    cbn [record_indices]; [assumption|].
  apply IH. now apply dict_keys_set_NoDup.
Qed.

(** X6. ViewIds being pairwise distinct, the feature index
    [write_describers] returns has exactly the catalogued viewIds as keys,
    in the order of the catalogue, and the row of a view has exactly the
    markerIds of the view's group as keys, each once (no key for a view
    without group). *)
Theorem feature_index_shape :
  forall set_iter nd images lookup fs fs' fl,
    NoDup (dict_values lookup) ->
    write_describers set_iter nd images lookup fs = inr (fs', fl) ->
    dict_keys fl = dict_values lookup /\
    forall img viewid, In (img, viewid) lookup ->
      exists row,
        dict_get fl viewid = Some row /\
        NoDup (dict_keys row) /\
        forall t, In t (dict_keys row) <->
                  In t (map tagid (group_at images img)).
Proof.
  intros set_iter nd images lookup fs fs' fl Hnd Hrun. split.
  - unfold write_describers in Hrun.
    destruct (write_views nd images lookup _) as [e|st] eqn:Hviews;
      [discriminate|].
    injection Hrun as _ <-.
    apply write_views_keys in Hviews as [_ ->]. cbn [feature_lookup init_state].
    now rewrite fold_set_keys_fresh.
  - intros img viewid Hin. apply in_split in Hin as [pre [post ->]].
    rewrite (feature_index_row set_iter nd images pre img viewid post fs fs' fl
               Hnd Hrun).
    eexists. split; [reflexivity|]. unfold group_at.
    destruct (dict_get images img) as [markers|].
    + split; [apply record_indices_NoDup; constructor|].
      intros t. rewrite record_indices_keys. simpl. tauto.
    + split; [constructor | intros t; simpl; tauto].
Qed.

Lemma write_markers_found markers : forall viewid idx feat st feat' st' t,
  write_markers viewid markers idx feat st = inr (feat', st') ->
  dict_get (found_markers st') t =
  option_map (fun n => n + count_occ Z.eq_dec (map tagid markers) t)
             (dict_get (found_markers st) t).
Proof.
  induction markers as [|m rest IH]; intros viewid idx feat st feat' st' t Hrun;
    cbn [write_markers] in Hrun.
  - injection Hrun as _ <-. simpl.
    destruct (dict_get (found_markers st) t); simpl; [f_equal; lia | reflexivity].
  - destruct (dict_get (found_markers st) (tagid m)) as [seen|] eqn:Hseen;
      [|discriminate].
    destruct (dict_get (feature_lookup st) viewid); [|discriminate].
    cbn [of_option] in Hrun. rewrite (IH _ _ _ _ _ _ t Hrun).
    cbn [found_markers map].
    destruct (Z.eq_dec (tagid m) t) as [Heq|Hne].
    + subst t. rewrite dict_get_set_eq, Hseen.
      rewrite count_occ_cons_eq by reflexivity. simpl. f_equal. lia.
    + rewrite dict_get_set_ne by assumption.
      now rewrite count_occ_cons_neq by assumption.
Qed.

Lemma write_view_found nd images img viewid st st' t :
  write_view nd images (img, viewid) st = inr st' ->
  dict_get (found_markers st') t =
  option_map
    (fun n => n + count_occ Z.eq_dec (map tagid (group_at images img)) t)
    (dict_get (found_markers st) t).
Proof.
  intros Hrun. apply write_view_inv in Hrun as [feat [desc [st1 [-> Hcase]]]].
  cbn [found_markers view_result]. unfold group_at.
  destruct (dict_get images img) as [markers|].
  - destruct Hcase as [Hm _]. eapply write_markers_found. eassumption.
  - destruct Hcase as [-> _]. simpl.
    destruct (dict_get (found_markers st) t); simpl; [f_equal; lia | reflexivity].
Qed.

Lemma write_views_found nd images entries : forall st st' t,
  write_views nd images entries st = inr st' ->
  dict_get (found_markers st') t =
  option_map (fun n => n + observations images entries t)
             (dict_get (found_markers st) t).
Proof.
  induction entries as [|[img v] rest IH]; intros st st' t Hrun;
    cbn [write_views] in Hrun.
  - injection Hrun as <-. unfold observations. simpl.
    destruct (dict_get (found_markers st) t); simpl; [f_equal; lia | reflexivity].
  - destruct (write_view nd images (img, v) st) as [e|st1] eqn:Hview;
      [discriminate|].
    rewrite (IH st1 st' t Hrun), (write_view_found _ _ _ _ _ _ t Hview).
    unfold observations. cbn [map list_sum fst].
    destruct (dict_get (found_markers st) t); simpl; [f_equal; lia | reflexivity].
Qed.

(** X7. The report logged at the end of [write_describers] has, after its
    heading, one line per distinct markerId of the whole marker table, and
    the number on the line of a markerId is the number of observations of
    it in the groups of the catalogued images: an observation repeated in
    one view counts each time, and a markerId seen only in images that are
    not catalogued is reported with 0. *)
Theorem markers_report_counts :
  forall set_iter nd images lookup fs report,
    set_iter_spec set_iter ->
    write_describers_report set_iter nd images lookup fs = inr report ->
    exists found,
      report = markers_report found /\
      NoDup (dict_keys found) /\
      (forall t, In t (dict_keys found) <-> In t (all_tagids images)) /\
      (forall t n, In (t, n) found -> n = observations images lookup t) /\
      (forall t, In t (all_tagids images) ->
         In (report_line t (observations images lookup t)) report).
Proof.
  intros set_iter nd images lookup fs report Hperm Hrun.
  unfold write_describers_report in Hrun.
  destruct (write_views nd images lookup _) as [e|st] eqn:Hviews;
    [discriminate|].
  injection Hrun as <-. exists (found_markers st).
  pose proof (write_views_keys _ _ _ _ _ Hviews) as [Hkeys _].
  cbn [found_markers init_state] in Hkeys.
  assert (Hin : forall t, In t (dict_keys (found_markers st)) <->
                          In t (all_tagids images)).
  { intros t. rewrite Hkeys, fold_set_keys. simpl. split.
    - intros [[]|Ht]. eapply Permutation_in in Ht; [|apply Hperm].
      now apply nodup_In in Ht.
    - intros Ht. right.
      eapply Permutation_in; [apply Permutation_sym, Hperm|].
      now apply nodup_In. }
  assert (Hnd : NoDup (dict_keys (found_markers st))).
  { rewrite Hkeys. apply fold_set_keys_NoDup. constructor. }
  assert (Hget : forall t, In t (all_tagids images) ->
            dict_get (found_markers st) t
            = Some (observations images lookup t)).
  { intros t Ht. rewrite (write_views_found _ _ _ _ _ t Hviews).
    cbn [found_markers init_state]. rewrite fold_set_get; [reflexivity|].
    right. eapply Permutation_in; [apply Permutation_sym, Hperm|].
    now apply nodup_In. }
  split; [reflexivity|]. split; [exact Hnd|]. split; [exact Hin|]. split.
  - intros t n Hentry.
    assert (Ht : In t (all_tagids images)).
    { apply Hin. change t with (fst (t, n)). now apply in_map. }
    apply (dict_In_get _ _ _ Hnd) in Hentry. rewrite (Hget t Ht) in Hentry.
    congruence.
  - intros t Ht. right.
    apply (in_map (fun entry => report_line (fst entry) (snd entry))
                  (found_markers st) (t, observations images lookup t)).
    apply dict_get_In. now apply Hget.
Qed.

(** ** File names *)

Lemma string_app_inv_l a b c : a +++ b = a +++ c -> b = c.
Proof.
  induction a as [|x a IH]; simpl; [auto|]. intros [= Heq]. auto.
Qed.

Lemma string_app_inv_r a b c : a +++ c = b +++ c -> a = b.
Proof.
  intros Heq. apply (f_equal list_ascii_of_string) in Heq.
  rewrite !list_ascii_append in Heq. apply app_inv_tail in Heq.
  apply (f_equal string_of_list_ascii) in Heq.
  now rewrite !string_of_list_ascii_of_string in Heq.
Qed.

Lemma starts_with_sep_dot v s :
  starts_with_sep (v +++ "." +++ s) = starts_with_sep v.
Proof. destruct v; reflexivity. Qed.

Lemma os_path_join_relative a b :
  starts_with_sep b = false -> os_path_join a b = dir_prefix a +++ b.
Proof.
  intros Hb. unfold os_path_join, dir_prefix. rewrite Hb.
  destruct (String.eqb a "" || ends_with_sep a)%bool; [reflexivity|].
  now rewrite string_app_assoc.
Qed.

Lemma os_path_join_absolute a b :
  starts_with_sep b = true -> os_path_join a b = b.
Proof. intros Hb. unfold os_path_join. now rewrite Hb. Qed.

Lemma os_path_join_inj a b b' :
  starts_with_sep b = starts_with_sep b' ->
  os_path_join a b = os_path_join a b' -> b = b'.
Proof.
  intros Hsame. destruct (starts_with_sep b) eqn:Hb.
  - rewrite !os_path_join_absolute by auto. auto.
  - rewrite !os_path_join_relative by auto. apply string_app_inv_l.
Qed.

Lemma view_path_inj nd v v' :
  starts_with_sep v = starts_with_sep v' ->
  feat_path nd v = feat_path nd v' \/ desc_path nd v = desc_path nd v' ->
  v = v'.
Proof.
  intros Hsame [Heq|Heq]; unfold feat_path, desc_path in Heq;
    apply os_path_join_inj in Heq;
    try (rewrite !starts_with_sep_dot; exact Hsame);
    eapply string_app_inv_r; exact Heq.
Qed.

Lemma split_on_no_sep sep b : forall cur,
  ~ In sep b -> split_on sep b cur = [rev cur ++ b].
Proof.
  induction b as [|c r IH]; intros cur Hb; cbn [split_on].
  - now rewrite app_nil_r.
  - destruct (Ascii.eqb c sep) eqn:E.
    + apply Ascii.eqb_eq in E. exfalso. apply Hb. now left.
    + rewrite IH by (intros Hin; apply Hb; now right).
      cbn [rev]. now rewrite <- app_assoc.
Qed.

Lemma split_on_last_piece sep a : forall b cur d,
  ~ In sep b -> last (split_on sep (a ++ sep :: b) cur) d = b.
Proof.
  induction a as [|c a IH]; intros b cur d Hb; cbn [app split_on].
  - rewrite Ascii.eqb_refl, split_on_no_sep by assumption. reflexivity.
  - destruct (Ascii.eqb c sep).
    + rewrite <- last_cons_default. now apply IH.
    + now apply IH.
Qed.

Lemma dir_prefix_cases dir :
  dir_prefix dir = "" \/
  exists a, list_ascii_of_string (dir_prefix dir) = a ++ ["/"%char].
Proof.
  unfold dir_prefix. destruct (String.eqb dir "") eqn:Hempty.
  - apply String.eqb_eq in Hempty. now left.
  - cbn [orb]. right. destruct (ends_with_sep dir) eqn:Hends.
    + unfold ends_with_sep in Hends.
      destruct (rev (list_ascii_of_string dir)) as [|c r] eqn:Hrev;
        [discriminate|].
      apply Ascii.eqb_eq in Hends. subst c. exists (rev r).
      rewrite <- (rev_involutive (list_ascii_of_string dir)), Hrev.
      reflexivity.
    + exists (list_ascii_of_string dir). apply list_ascii_append.
Qed.

(** The last component of a name put directly in a folder. *)
Lemma basename_dir_prefix dir name :
  ~ In "/"%char (list_ascii_of_string name) ->
  basename (dir_prefix dir +++ name) = name.
Proof.
  intros Hname. unfold basename. rewrite list_ascii_append.
  destruct (dir_prefix_cases dir) as [->|[a ->]].
  - cbn [list_ascii_of_string app]. rewrite split_on_no_sep by assumption.
    cbn [last rev app]. apply string_of_list_ascii_of_string.
  - rewrite <- app_assoc. cbn [app].
    rewrite split_on_last_piece by assumption.
    apply string_of_list_ascii_of_string.
Qed.

Lemma no_slash_relative v :
  ~ In "/"%char (list_ascii_of_string v) -> starts_with_sep v = false.
Proof.
  destruct v as [|c v]; [reflexivity|]. cbn [starts_with_sep].
  intros Hn. apply Ascii.eqb_neq. intros ->. apply Hn. now left.
Qed.

Lemma view_file_name_no_slash nd v ext :
  ~ In "/"%char (list_ascii_of_string v) ->
  ~ In "/"%char (list_ascii_of_string ext) ->
  ~ In "/"%char
      (list_ascii_of_string (v +++ "." +++ type_value (type nd) +++ ext)).
Proof.
  intros Hv Hext. rewrite !list_ascii_append, !in_app_iff.
  intros [Hin|[Hin|[Hin|Hin]]]; [now apply Hv | | | now apply Hext].
  - destruct Hin as [Heq|[]]. discriminate.
  - destruct (type nd); simpl in Hin; intuition discriminate.
Qed.

Lemma view_base_names nd v :
  ~ In "/"%char (list_ascii_of_string v) ->
  feat_path nd v
  = dir_prefix (output nd) +++ v +++ "." +++ type_value (type nd) +++ ".feat" /\
  desc_path nd v
  = dir_prefix (output nd) +++ v +++ "." +++ type_value (type nd) +++ ".desc" /\
  basename (feat_path nd v) = v +++ "." +++ type_value (type nd) +++ ".feat" /\
  basename (desc_path nd v) = v +++ "." +++ type_value (type nd) +++ ".desc".
Proof.
  intros Hv. pose proof (no_slash_relative v Hv) as Hrel.
  unfold feat_path, desc_path.
  rewrite !os_path_join_relative by (now rewrite starts_with_sep_dot).
  split; [reflexivity|]. split; [reflexivity|].
  split; apply basename_dir_prefix; apply view_file_name_no_slash;
    try assumption; simpl; intuition discriminate.
Qed.

(** X8. Where the files of a view go.  A viewId that begins with a slash
    makes [os.path.join] drop the output folder: the files are opened at
    that absolute name.  A viewId that holds no slash gets its two files
    directly in the output folder, their last path components being the
    viewId followed by the descriptor type and [.feat] or [.desc]; so the
    files of two different viewIds without slash are different entries of
    that one folder, and in a catalogue of pairwise distinct viewIds without
    slash no view writes the files of another. *)
Theorem view_file_paths :
  forall nd viewid,
    (starts_with_sep viewid = true ->
     feat_path nd viewid = viewid +++ "." +++ type_value (type nd) +++ ".feat" /\
     desc_path nd viewid = viewid +++ "." +++ type_value (type nd) +++ ".desc")
    /\
    (~ In "/"%char (list_ascii_of_string viewid) ->
     feat_path nd viewid
     = dir_prefix (output nd) +++ viewid +++ "." +++ type_value (type nd)
       +++ ".feat" /\
     desc_path nd viewid
     = dir_prefix (output nd) +++ viewid +++ "." +++ type_value (type nd)
       +++ ".desc" /\
     basename (feat_path nd viewid)
     = viewid +++ "." +++ type_value (type nd) +++ ".feat" /\
     basename (desc_path nd viewid)
     = viewid +++ "." +++ type_value (type nd) +++ ".desc" /\
     basename (feat_path nd viewid) <> basename (desc_path nd viewid) /\
     (forall viewid',
        ~ In "/"%char (list_ascii_of_string viewid') ->
        viewid' <> viewid ->
        basename (feat_path nd viewid') <> basename (feat_path nd viewid) /\
        basename (desc_path nd viewid') <> basename (desc_path nd viewid) /\
        basename (feat_path nd viewid') <> basename (desc_path nd viewid) /\
        basename (desc_path nd viewid') <> basename (feat_path nd viewid)) /\
     (forall (pre post : lookup_t) img,
        NoDup (dict_values (pre ++ (img, viewid) :: post)) ->
        (forall v, In v (dict_values post) ->
                   ~ In "/"%char (list_ascii_of_string v)) ->
        not_rewritten nd viewid post)).
Proof.
  intros nd viewid. split.
  - intros Habs. unfold feat_path, desc_path.
    rewrite !os_path_join_absolute by (now rewrite starts_with_sep_dot).
    auto.
  - intros Hv.
    destruct (view_base_names nd viewid Hv) as [Hf [Hd [Hbf Hbd]]].
    assert (Hext : forall a b : string, a +++ ".feat" <> b +++ ".desc").
    { intros a b Heq. apply (f_equal list_ascii_of_string) in Heq.
      rewrite !list_ascii_append in Heq.
      change (list_ascii_of_string ".feat")
        with ([ "."; "f"; "e"; "a" ] ++ [ "t" ])%char in Heq.
      change (list_ascii_of_string ".desc")
        with ([ "."; "d"; "e"; "s" ] ++ [ "c" ])%char in Heq.
      rewrite !app_assoc in Heq. apply app_inj_tail in Heq as [_ Heq].
      discriminate. }
    assert (Hmix : forall v v',
               v +++ "." +++ type_value (type nd) +++ ".feat"
               <> v' +++ "." +++ type_value (type nd) +++ ".desc").
    { intros v v'. rewrite <- !string_app_assoc. apply Hext. }
    split; [exact Hf|]. split; [exact Hd|]. split; [exact Hbf|].
    split; [exact Hbd|]. split; [rewrite Hbf, Hbd; apply Hmix|]. split.
    + intros viewid' Hv' Hne.
      destruct (view_base_names nd viewid' Hv') as [_ [_ [Hbf' Hbd']]].
      rewrite Hbf, Hbd, Hbf', Hbd'.
      split; [|split; [|split]].
      * intros Heq. apply Hne. eapply string_app_inv_r. exact Heq.
      * intros Heq. apply Hne. eapply string_app_inv_r. exact Heq.
      * apply Hmix.
      * intros Heq. symmetry in Heq. revert Heq. apply Hmix.
    + intros pre post img Hnd Hpost entry Hin.
      assert (Hne : snd entry <> viewid).
      { unfold dict_values in Hnd. rewrite map_app in Hnd.
        cbn [map snd] in Hnd. apply NoDup_remove_2 in Hnd.
        intros Heq. apply Hnd. apply in_or_app. right. rewrite <- Heq.
        now apply in_map. }
      assert (Hv' : ~ In "/"%char (list_ascii_of_string (snd entry))).
      { apply Hpost. unfold dict_values. now apply in_map. }
      assert (Hsame : starts_with_sep (snd entry) = starts_with_sep viewid)
        by (now rewrite !no_slash_relative).
      split; intros Heq; apply Hne; apply (view_path_inj nd _ _ Hsame); auto.
Qed.

Lemma matches_path_not_view_file nd v :
  feat_path nd v <> matches_path nd /\ desc_path nd v <> matches_path nd.
Proof.
  unfold feat_path, desc_path, matches_path.
  destruct (os_path_join_suffix (matches_out nd) "0.matches.txt") as [q Hq].
  change (list_ascii_of_string "0.matches.txt")
    with (list_ascii_of_string "0.matches.t" ++ [ "x" ] ++ [ "t" ])%char in Hq.
  split; intros Heq; apply (f_equal list_ascii_of_string) in Heq;
    rewrite Hq in Heq.
  - destruct (os_path_join_suffix (output nd)
                (v +++ "." +++ type_value (type nd) +++ ".feat")) as [p Hp].
    rewrite Hp in Heq. rewrite !list_ascii_append in Heq.
    change (list_ascii_of_string ".feat")
      with ([ "."; "f"; "e" ] ++ [ "a" ] ++ [ "t" ])%char in Heq.
    rewrite !app_assoc in Heq. apply app_inj_tail in Heq as [Heq _].
    apply app_inj_tail in Heq as [_ Heq]. discriminate.
  - destruct (os_path_join_suffix (output nd)
                (v +++ "." +++ type_value (type nd) +++ ".desc")) as [p Hp].
    rewrite Hp in Heq. rewrite !list_ascii_append in Heq.
    change (list_ascii_of_string ".desc")
      with ([ "."; "d"; "e"; "s" ] ++ [ "c" ])%char in Heq.
    rewrite !app_assoc in Heq. apply app_inj_tail in Heq as [_ Heq].
    discriminate.
Qed.

(** ** [processChunk] *)

(** X9. With bypass off, [processChunk] does not write [0.matches.txt]:
    when it returns, the match file is whatever it was before the run. *)
Theorem no_match_file_without_bypass :
  forall set_iter nd fs fs',
    hack nd = false ->
    processChunk set_iter nd fs = inr fs' ->
    dict_get fs' (matches_path nd) = dict_get fs (matches_path nd).
Proof.
  intros set_iter nd fs fs' Hhack Hrun. unfold processChunk in Hrun.
  destruct (matches nd) as [content|]; [|discriminate].
  destruct (load_viewids (input nd)) as [e|lookup]; [discriminate|].
  destruct (load_images content _) as [e|images]; [discriminate|].
  unfold write_describers in Hrun.
  destruct (write_views nd images lookup _) as [e|st] eqn:Hviews;
    [discriminate|].
  rewrite Hhack in Hrun. injection Hrun as <-.
  rewrite (write_views_fs_frame _ _ _ _ _ _ Hviews); [reflexivity|].
  intros entry _. apply matches_path_not_view_file.
Qed.

Lemma write_views_error_cause nd images lookup entries : forall st e,
  groups_ok images ->
  state_ok images lookup st ->
  (forall entry, In entry entries -> In (snd entry) (dict_values lookup)) ->
  write_views nd images entries st = inl e ->
  e = IndexError /\ hack nd = false /\
  exists img viewid earlier m,
    In (img, viewid) entries /\
    dict_get images img = Some (earlier ++ [m]) /\
    (tagid m < -128 \/ 128 <= tagid m)%Z.
Proof.
  induction entries as [|[img viewid] rest IH]; intros st e Hgroups Hok Hin Hrun;
    cbn [write_views] in Hrun; [discriminate|].
  destruct (write_view_outcome nd images lookup img viewid st Hgroups Hok)
    as [[st' Hview]|[Hview [Hhack [earlier [m [Hget Hout]]]]]].
  - apply (Hin (img, viewid)). now left.
  - rewrite Hview in Hrun.
    destruct (IH st' e Hgroups) as [He [Hh [img' [v' [ea [m' [Hi Hrest]]]]]]];
      try assumption.
    + eapply write_view_ok; eassumption.
    + intros entry Hentry. apply Hin. now right.
    + split; [assumption|]. split; [assumption|].
      exists img', v', ea, m'. split; [now right | assumption].
  - rewrite Hview in Hrun. injection Hrun as <-.
    split; [reflexivity|]. split; [assumption|].
    exists img, viewid, earlier, m. split; [now left | auto].
Qed.

Lemma parse_row_inr row item :
  parse_row row = inr item -> well_formed_row row.
Proof.
  intros Hrun. destruct (le_lt_dec 5 (length row)) as [Hlen|Hlen].
  - split; [assumption|].
    destruct (py_int (nth 3 row "")) as [z|] eqn:Hid; [eauto|].
    rewrite parse_row_bad_id in Hrun by assumption. discriminate.
  - rewrite parse_row_short in Hrun by assumption. discriminate.
Qed.

Lemma parse_rows_inr rows : forall csv_data,
  parse_rows rows = inr csv_data -> Forall well_formed_row rows.
Proof.
  induction rows as [|row rest IH]; intros csv_data Hrun; [constructor|].
  cbn [parse_rows] in Hrun.
  destruct (parse_row row) as [e|item] eqn:Hrow; [discriminate|].
  destruct (parse_rows rest) as [e|items] eqn:Hrest; [discriminate|].
  constructor; [eapply parse_row_inr; eassumption | eapply IH; reflexivity].
Qed.

Lemma load_images_inr_well_formed content delimiter images :
  load_images content delimiter = inr images ->
  Forall well_formed_row (csv_reader delimiter content).
Proof.
  intros Hrun. unfold load_images in Hrun.
  destruct (parse_rows (csv_reader delimiter content)) as [e|csv_data] eqn:Hp;
    [discriminate|].
  eapply parse_rows_inr; eassumption.
Qed.

Lemma parse_rows_error_kinds rows : forall e,
  parse_rows rows = inl e -> e = IndexError \/ e = ValueError.
Proof.
  induction rows as [|row rest IH]; intros e Hp; cbn [parse_rows] in Hp;
    [discriminate|].
  destruct (parse_row row) as [e1|item] eqn:Hrow.
  - injection Hp as <-.
    destruct (le_lt_dec 5 (length row)) as [Hlen|Hlen].
    + destruct (py_int (nth 3 row "")) as [z|] eqn:Hid.
      * destruct (parse_row_well_formed row) as [it [Hok _]];
          [split; eauto|]. rewrite Hok in Hrow. discriminate.
      * rewrite parse_row_bad_id in Hrow by assumption.
        injection Hrow as <-. now right.
    + rewrite parse_row_short in Hrow by assumption.
      injection Hrow as <-. now left.
  - destruct (parse_rows rest) as [e2|items]; [|discriminate].
    injection Hp as <-. now apply IH.
Qed.

Lemma load_images_error_kinds content delimiter e :
  load_images content delimiter = inl e -> e = IndexError \/ e = ValueError.
Proof.
  intros Hrun. unfold load_images in Hrun.
  destruct (parse_rows (csv_reader delimiter content)) as [e'|csv_data] eqn:Hp.
  - injection Hrun as <-. eapply parse_rows_error_kinds. eassumption.
  - exfalso. pose proof (parse_rows_inr _ _ Hp) as Hwf.
    destruct (load_images_spec content delimiter Hwf)
      as [_ [images [Hrun' _]]].
    unfold load_images in Hrun'. rewrite Hp in Hrun'. congruence.
Qed.

(** X10. On a table whose groups are non-empty, as [load_images] builds
    them, the dictionaries of [write_describers] and of [make_matches_txt]
    always hold the key they are indexed with, and the variable [marker] is
    bound when the indicator block is written: [write_describers] raises no
    [KeyError], no [UnboundLocalError] and no [struct] error, and
    [make_matches_txt], given the pairs of catalogued viewIds and the index
    [write_describers] returned, raises no [KeyError].  [processChunk],
    which hands [write_describers] the table [load_images] built, therefore
    never ends in an [UnboundLocalError] or a [struct] error. *)
Theorem no_lookup_failure :
  forall set_iter nd fs,
    set_iter_spec set_iter ->
    (forall images lookup,
       groups_ok images ->
       (forall e,
          write_describers set_iter nd images lookup fs = inl e ->
          e <> KeyError /\ e <> UnboundLocalError /\ e <> StructError) /\
       (forall fs' fl,
          write_describers set_iter nd images lookup fs = inr (fs', fl) ->
          make_matches_txt set_iter nd (combinations2 (dict_values lookup))
            fl fs'
          <> inl KeyError)) /\
    ((forall content,
        matches nd = Some content ->
        (Z.of_nat
           (length (csv_reader (delimiters_options (delimiter nd)) content))
         < 2 ^ 64)%Z) ->
     processChunk set_iter nd fs <> inl UnboundLocalError /\
     processChunk set_iter nd fs <> inl StructError).
Proof.
  intros set_iter nd fs Hperm.
  assert (Hviews_fail : forall images lookup e,
            groups_ok images ->
            write_views nd images lookup (init_state set_iter images lookup fs)
            = inl e -> e = IndexError).
  { intros images lookup e Hgroups Hviews.
    destruct (write_views_error_cause nd images lookup lookup _ e Hgroups
                (init_state_ok set_iter Hperm images lookup fs))
      as [-> _]; [|exact Hviews|reflexivity].
    intros entry Hin. now apply in_map. }
  assert (Hmatches : forall images lookup st,
            write_views nd images lookup (init_state set_iter images lookup fs)
            = inr st ->
            exists fs'',
              make_matches_txt set_iter nd (combinations2 (dict_values lookup))
                (feature_lookup st) (w_fs st) = inr fs'').
  { intros images lookup st Hviews. unfold make_matches_txt.
    destruct (match_blocks_spec set_iter Hperm nd (feature_lookup st)
                (combinations2 (dict_values lookup)))
      as [out_temp [-> _]]; [|eauto].
    intros vA vB Hin. apply combinations2_In in Hin as [HA HB].
    apply reached_ok in Hviews; [|assumption].
    split; now apply Hviews. }
  split.
  - intros images lookup Hgroups. unfold write_describers.
    destruct (write_views nd images lookup
                (init_state set_iter images lookup fs))
      as [e0|st] eqn:Hviews; split.
    + intros e [= <-].
      rewrite (Hviews_fail images lookup e0 Hgroups Hviews).
      repeat split; discriminate.
    + intros fs' fl Hx. discriminate.
    + intros e Hx. discriminate.
    + intros fs' fl [= <- <-].
      destruct (Hmatches images lookup st Hviews) as [fs'' ->]. discriminate.
  - intros Hlen. unfold processChunk.
    destruct (matches nd) as [content|] eqn:Hm; [|split; discriminate].
    specialize (Hlen content eq_refl).
    destruct (load_viewids (input nd)) as [e|lookup] eqn:Hl.
    { unfold load_viewids in Hl. destruct (input nd); [discriminate|].
      injection Hl as <-. split; discriminate. }
    destruct (load_images content (delimiters_options (delimiter nd)))
      as [e|images] eqn:Himg.
    { destruct (load_images_error_kinds _ _ _ Himg) as [->| ->];
        split; discriminate. }
    pose proof (load_images_groups_ok _ _ _
                  (load_images_inr_well_formed _ _ _ Himg) Hlen Himg)
      as Hgroups.
    unfold write_describers.
    destruct (write_views nd images lookup
                (init_state set_iter images lookup fs))
      as [e|st] eqn:Hviews.
    { rewrite (Hviews_fail images lookup e Hgroups Hviews).
      split; discriminate. }
    destruct (hack nd); [|split; discriminate].
    destruct (Hmatches images lookup st Hviews) as [fs'' ->].
    split; discriminate.
Qed.

(** ** Running the node again *)

Lemma write_markers_with_fs markers : forall viewid idx feat st fs2,
  write_markers viewid markers idx feat (with_fs st fs2) =
  match write_markers viewid markers idx feat st with
  | inl e => inl e
  | inr (feat', st') => inr (feat', with_fs st' fs2)
  end.
Proof.
  induction markers as [|m rest IH]; intros viewid idx feat st fs2;
    cbn [write_markers]; [reflexivity|].
  cbn [with_fs found_markers feature_lookup].
  destruct (dict_get (found_markers st) (tagid m)) as [seen|]; [|reflexivity].
  destruct (dict_get (feature_lookup st) viewid) as [row|]; [|reflexivity].
  cbn [of_option]. apply (IH viewid (S idx) _
    {| w_fs := w_fs st;
       found_markers := dict_set (found_markers st) (tagid m) (seen + 1);
       feature_lookup :=
         dict_set (feature_lookup st) viewid
                  (dict_set row (tagid m) (str_of_nat idx));
       marker_var := Some m |} fs2).
Qed.

(** An iteration does the same from another file system, and writes the
    same two contents. *)
Lemma write_view_with_fs nd images img viewid st st' fs2 :
  write_view nd images (img, viewid) st = inr st' ->
  exists text bytes,
    w_fs st' = closed_files nd viewid (w_fs st) text bytes /\
    write_view nd images (img, viewid) (with_fs st fs2)
    = inr (with_fs st' (closed_files nd viewid fs2 text bytes)).
Proof.
  unfold write_view. destruct (dict_get images img) as [markers|].
  - destruct (struct_pack_Q (Z.of_nat (length markers))) as [e|count];
      [discriminate|].
    rewrite write_markers_with_fs.
    destruct (write_markers viewid markers 0 "" st) as [e|[feat st1]];
      [discriminate|].
    destruct (hack nd).
    + intros [= <-]. exists feat, count. split; reflexivity.
    + cbn [with_fs marker_var].
      destruct (marker_var st1) as [m|]; [|discriminate]. cbn [of_option].
      destruct (bytearray_setitem (bytearray 128) (tagid m) 255) as [e|data];
        [discriminate|].
      intros [= <-]. exists feat, (count ++ data). split; reflexivity.
  - cbn. intros [= <-]. exists "", (le_bytes 8 0). split; reflexivity.
Qed.

(** The paths the views of [entries] write. *)
Lemma written_or_not nd (entries : list (string * string)) p :
  (exists entry, In entry entries /\
     (feat_path nd (snd entry) = p \/ desc_path nd (snd entry) = p)) \/
  (forall entry, In entry entries ->
     feat_path nd (snd entry) <> p /\ desc_path nd (snd entry) <> p).
Proof.
  induction entries as [|entry rest IH]; [right; intros ? []|].
  destruct (string_dec (feat_path nd (snd entry)) p) as [Hf|Hf];
    [left; exists entry; split; [now left | now left]|].
  destruct (string_dec (desc_path nd (snd entry)) p) as [Hd|Hd];
    [left; exists entry; split; [now left | now right]|].
  destruct IH as [[e [Hin He]]|Hnone].
  - left. exists e. split; [now right | exact He].
  - right. intros e [<-|Hin]; auto.
Qed.

Lemma write_views_with_fs nd images entries : forall st st' fs2,
  write_views nd images entries st = inr st' ->
  exists fs2',
    write_views nd images entries (with_fs st fs2) = inr (with_fs st' fs2') /\
    forall p,
      dict_get (w_fs st) p = dict_get fs2 p \/
      (exists entry, In entry entries /\
         (feat_path nd (snd entry) = p \/ desc_path nd (snd entry) = p)) ->
      dict_get (w_fs st') p = dict_get fs2' p.
Proof.
  induction entries as [|[img v] rest IH]; intros st st' fs2 Hrun;
    cbn [write_views] in *.
  - injection Hrun as <-. exists fs2. split; [reflexivity|].
    intros p [Hp|[e [[] _]]]. exact Hp.
  - destruct (write_view nd images (img, v) st) as [e|st1] eqn:Hview;
      [discriminate|].
    destruct (write_view_with_fs nd images img v st st1 fs2 Hview)
      as [text [bytes [Hfs Hview2]]].
    rewrite Hview2.
    destruct (IH st1 st' (closed_files nd v fs2 text bytes) Hrun)
      as [fs2' [Hrun2 Hagree]].
    exists fs2'. split; [exact Hrun2|].
    intros p Hp. apply Hagree.
    destruct Hp as [Hp|[entry [[<-|Hin] Hw]]].
    + left. rewrite Hfs.
      destruct (string_dec (feat_path nd v) p) as [<-|Hf];
        [now rewrite !closed_files_feat|].
      destruct (string_dec (desc_path nd v) p) as [<-|Hd];
        [now rewrite !closed_files_desc|].
      now rewrite !closed_files_other.
    + left. rewrite Hfs. cbn [snd] in Hw.
      destruct Hw as [<-|<-];
        [now rewrite !closed_files_feat | now rewrite !closed_files_desc].
    + right. exists entry. auto.
Qed.

(** X11. Running [processChunk] a second time over the files the first
    run left (the inputs being the same) ends normally again and leaves
    every file with the content it had: each file the node writes is
    truncated and written afresh. *)
Theorem processChunk_rerun :
  forall set_iter nd fs fs',
    processChunk set_iter nd fs = inr fs' ->
    exists fs'',
      processChunk set_iter nd fs' = inr fs'' /\
      forall p, dict_get fs'' p = dict_get fs' p.
Proof.
  intros set_iter nd fs fs' Hrun. unfold processChunk in *.
  destruct (matches nd) as [content|]; [|discriminate].
  destruct (load_viewids (input nd)) as [e|lookup]; [discriminate|].
  destruct (load_images content _) as [e|images]; [discriminate|].
  unfold write_describers in *.
  destruct (write_views nd images lookup (init_state set_iter images lookup fs))
    as [e|st] eqn:Hviews; [discriminate|].
  destruct (write_views_with_fs nd images lookup _ st fs' Hviews)
    as [fs2 [Hviews2 Hagree]].
  change (with_fs (init_state set_iter images lookup fs) fs')
    with (init_state set_iter images lookup fs') in Hviews2.
  rewrite Hviews2. cbn [w_fs feature_lookup with_fs].
  assert (Hwd : forall p,
             dict_get fs' p = dict_get (w_fs st) p ->
             dict_get fs2 p = dict_get fs' p).
  { intros p Hp. rewrite Hp. symmetry. apply Hagree.
    destruct (written_or_not nd lookup p) as [Hw|Hnw]; [now right | left].
    rewrite Hp. cbn [w_fs init_state].
    rewrite (write_views_fs_frame _ _ _ _ _ _ Hviews Hnw). reflexivity. }
  destruct (hack nd) eqn:Hhack.
  - unfold make_matches_txt in *.
    destruct (match_blocks set_iter nd (feature_lookup st)
                (combinations2 (dict_values lookup))) as [e|out_temp];
      [discriminate|].
    injection Hrun as <-. eexists. split; [reflexivity|].
    intros p. destruct (string_dec (matches_path nd) p) as [<-|Hne].
    + now rewrite !dict_get_set_eq.
    + pose proof (Hwd p (dict_get_set_ne _ _ _ _ Hne)) as Hsame.
      rewrite !dict_get_set_ne by assumption.
      now rewrite dict_get_set_ne in Hsame by assumption.
  - injection Hrun as <-. eexists. split; [reflexivity|].
    intros p. now apply Hwd.
Qed.

(** ** [make_matches_txt]: the shape of a block and the pairing *)

Lemma shared_tags_NoDup row_A row_B :
  NoDup (dict_keys row_A) -> NoDup (shared_tags row_A row_B).
Proof. intros Hnd. unfold shared_tags. now apply NoDup_filter. Qed.

(** X12. The block [make_matches_txt] appends for a pair of views is empty
    exactly when the two rows of the feature index have no markerId in
    common.  Otherwise it is the header naming the two viewIds, the line 1,
    a line with the descriptor type and the number of shared markerIds, and
    then one index line per shared markerId, each markerId taken once: the
    line of a markerId is its feature-row index in the first view, a space,
    and its feature-row index in the second view. *)
Theorem match_block_format :
  forall set_iter nd fl vA vB row_A row_B,
    set_iter_spec set_iter ->
    dict_get fl vA = Some row_A ->
    dict_get fl vB = Some row_B ->
    exists block,
      match_block set_iter nd fl (vA, vB) = inr block /\
      (block = [] <->
       forall t, ~ (In t (dict_keys row_A) /\ In t (dict_keys row_B))) /\
      (block <> [] ->
       exists tags lines,
         block = (vA +++ " " +++ vB)
                 :: "1"
                 :: (type_value (type nd) +++ " " +++ str_of_nat (length tags))
                 :: lines /\
         length lines = length tags /\
         Permutation tags (shared_tags row_A row_B) /\
         (forall t, In t tags <->
                    In t (dict_keys row_A) /\ In t (dict_keys row_B)) /\
         (NoDup (dict_keys row_A) -> NoDup tags) /\
         Forall2 (fun t line =>
                    exists a b, dict_get row_A t = Some a /\
                                dict_get row_B t = Some b /\
                                line = a +++ " " +++ b)
                 tags lines).
Proof.
  intros set_iter nd fl vA vB row_A row_B Hperm HA HB.
  destruct (match_block_spec set_iter Hperm nd fl vA vB row_A row_B HA HB)
    as [block [Hrun [[Hnil ->]|[Hsome [lines [-> Hall]]]]]].
  - exists []. split; [exact Hrun|]. split; [|intros Hne; now elim Hne].
    split; [|reflexivity]. intros _ t Ht.
    apply shared_tags_In in Ht. rewrite Hnil in Ht. destruct Ht.
  - eexists. split; [exact Hrun|]. split.
    + split; [discriminate|]. intros Hnone. exfalso. apply Hsome.
      destruct (shared_tags row_A row_B) as [|t rest] eqn:Hs; [reflexivity|].
      exfalso. apply (Hnone t). apply shared_tags_In. rewrite Hs. now left.
    + intros _. exists (set_iter (shared_tags row_A row_B)), lines.
      pose proof (Hperm (shared_tags row_A row_B)) as Hp.
      split; [now rewrite (Permutation_length Hp)|].
      split; [symmetry; exact (Forall2_length Hall)|].
      split; [exact Hp|]. split; [|split; [|exact Hall]].
      * intros t. rewrite <- shared_tags_In.
        split; intros Hin;
          [eapply Permutation_in; [exact Hp | exact Hin]
          |eapply Permutation_in; [apply Permutation_sym, Hp | exact Hin]].
      * intros Hnd. eapply Permutation_NoDup;
          [apply Permutation_sym, Hp | now apply shared_tags_NoDup].
Qed.

Lemma combinations2_positions {A : Type} (l : list A) x y :
  In (x, y) (combinations2 l) <->
  exists i j, i < j /\ nth_error l i = Some x /\ nth_error l j = Some y.
Proof.
  induction l as [|a r IH]; cbn [combinations2].
  - split; [intros [] | intros [i [j [_ [Hi _]]]]; destruct i; discriminate].
  - rewrite in_app_iff, in_map_iff, IH. split.
    + intros [[b [[= <- <-] Hb]]|[i [j [Hlt [Hi Hj]]]]].
      * apply In_nth_error in Hb as [j Hj].
        exists 0, (S j). split; [lia | auto].
      * exists (S i), (S j). split; [lia | auto].
    + intros [[|i] [[|j] [Hlt [Hi Hj]]]]; try lia; cbn [nth_error] in Hi, Hj.
      * injection Hi as ->. left. exists y. split; [reflexivity|].
        eapply nth_error_In. eassumption.
      * right. exists i, j. split; [lia | auto].
Qed.

Lemma combinations2_length {A : Type} (l : list A) :
  2 * length (combinations2 l) = length l * (length l - 1).
Proof.
  induction l as [|a r IH]; [reflexivity|].
  cbn [combinations2 length]. rewrite length_app, length_map.
  replace (S (length r) - 1) with (length r) by lia.
  destruct (length r) as [|n] eqn:Hn; [lia|].
  replace (S n - 1) with n in IH by lia. nia.
Qed.

Lemma combinations2_NoDup {A : Type} (l : list A) :
  NoDup l -> NoDup (combinations2 l).
Proof.
  induction l as [|a r IH]; intros Hnd; [constructor|].
  inversion Hnd as [|a' r' Hnot Hnd']; subst. cbn [combinations2].
  apply NoDup_app.
  - apply NoDup_map_NoDup_ForallPairs; [|assumption].
    intros x y _ _ [= Heq]. exact Heq.
  - now apply IH.
  - intros [x y] Hin1 Hin2. apply in_map_iff in Hin1 as [b [[= <- <-] _]].
    apply combinations2_In in Hin2 as [Ha _]. contradiction.
Qed.

(** X13. The pairs [processChunk] hands to [make_matches_txt] are the
    pairs of catalogued viewIds taken at two positions of the catalogue,
    the earlier position first: n (n - 1) / 2 pairs for n views.  ViewIds
    being pairwise distinct, no pair occurs twice, no pair occurs in both
    orders and no view is paired with itself. *)
Theorem image_pairs_exhaustive :
  forall (lookup : lookup_t),
    2 * length (combinations2 (dict_values lookup))
    = length lookup * (length lookup - 1) /\
    (forall vA vB,
       In (vA, vB) (combinations2 (dict_values lookup)) <->
       exists i j, i < j /\
         nth_error (dict_values lookup) i = Some vA /\
         nth_error (dict_values lookup) j = Some vB) /\
    (NoDup (dict_values lookup) ->
     NoDup (combinations2 (dict_values lookup)) /\
     forall vA vB, In (vA, vB) (combinations2 (dict_values lookup)) ->
       vA <> vB /\ ~ In (vB, vA) (combinations2 (dict_values lookup))).
Proof.
  intros lookup. split; [|split].
  - rewrite combinations2_length. unfold dict_values. now rewrite length_map.
  - intros vA vB. apply combinations2_positions.
  - intros Hnd. split; [now apply combinations2_NoDup|].
    intros vA vB Hin. split.
    + eapply combinations2_distinct; eassumption.
    + intros Hrev.
      apply combinations2_positions in Hin as [i [j [Hij [Hi Hj]]]].
      apply combinations2_positions in Hrev as [i' [j' [Hij' [Hi' Hj']]]].
      assert (i = j') by
        (eapply (proj1 (NoDup_nth_error (dict_values lookup)) Hnd);
         [apply nth_error_Some; congruence | congruence]).
      assert (j = i') by
        (eapply (proj1 (NoDup_nth_error (dict_values lookup)) Hnd);
         [apply nth_error_Some; congruence | congruence]).
      lia.
Qed.

(** ** [write_describers]: an empty group, and the order of a set *)







Lemma same_entries_set {K V : Type} `{EqKey K} (d d' : dict K V) k v :
  same_entries d d' -> same_entries (dict_set d k v) (dict_set d' k v).
Proof.
  intros Hsame k'. destruct (keqb_cases k k') as [[_ <-]|[_ Hne]].
  - now rewrite !dict_get_set_eq.
  - rewrite !dict_get_set_ne by assumption. apply Hsame.
Qed.

Lemma fold_set_get_other {K V : Type} `{EqKey K} (c : V) (l : list K) :
  forall (d : dict K V) k,
    ~ In k l ->
    dict_get (fold_left (fun d i => dict_set d i c) l d) k = dict_get d k.
Proof.
  induction l as [|x r IH]; intros d k Hk; cbn [fold_left]; [reflexivity|].
  rewrite IH by (intros Hin; apply Hk; now right).
  apply dict_get_set_ne. intros ->. apply Hk. now left.
Qed.

Lemma write_markers_same markers : forall viewid idx feat st1 st2,
  states_agree st1 st2 ->
  outcomes_agree
    (fun r1 r2 => fst r1 = fst r2 /\ states_agree (snd r1) (snd r2))
    (write_markers viewid markers idx feat st1)
    (write_markers viewid markers idx feat st2).
Proof.
  induction markers as [|m rest IH];
    intros viewid idx feat st1 st2 [Hfs [Hfound [Hfl Hvar]]];
    cbn [write_markers].
  - cbn. repeat split; auto.
  - rewrite <- (Hfound (tagid m)), <- Hfl.
    destruct (dict_get (found_markers st1) (tagid m)) as [seen|];
      [|reflexivity].
    destruct (dict_get (feature_lookup st1) viewid) as [row|]; [|reflexivity].
    cbn [of_option]. apply IH.
    cbn [w_fs found_markers feature_lookup marker_var].
    repeat split; auto. now apply same_entries_set.
Qed.

Lemma write_view_same nd images entry st1 st2 :
  states_agree st1 st2 ->
  outcomes_agree states_agree
    (write_view nd images entry st1) (write_view nd images entry st2).
Proof.
  intros Hagree. destruct entry as [img viewid].
  pose proof Hagree as [Hfs _].
  unfold write_view. rewrite <- Hfs.
  destruct (dict_get images img) as [markers|].
  - destruct (struct_pack_Q (Z.of_nat (length markers))) as [e|count];
      [reflexivity|].
    pose proof (write_markers_same markers viewid 0 "" st1 st2 Hagree) as Hm.
    destruct (write_markers viewid markers 0 "" st1) as [e1|[f1 s1]];
      destruct (write_markers viewid markers 0 "" st2) as [e2|[f2 s2]];
      cbn [outcomes_agree fst snd] in Hm; try exact Hm; try contradiction.
    destruct Hm as [<- [H2 [H3 [H4 H5]]]].
    destruct (hack nd).
    + cbn [outcomes_agree]. unfold states_agree.
      cbn [w_fs found_markers feature_lookup marker_var].
      repeat split; auto.
    + rewrite <- H5. destruct (marker_var s1) as [m|] eqn:Hm; [|reflexivity].
      cbn [of_option].
      destruct (bytearray_setitem (bytearray 128) (tagid m) 255);
        [reflexivity|].
      cbn [outcomes_agree]. unfold states_agree.
      cbn [w_fs found_markers feature_lookup marker_var].
      repeat split; auto. congruence.
  - cbn [struct_pack_Q outcomes_agree]. cbn.
    destruct Hagree as [_ [H2 [H3 H4]]]. repeat split; auto.
Qed.

Lemma write_views_same nd images entries : forall st1 st2,
  states_agree st1 st2 ->
  outcomes_agree states_agree
    (write_views nd images entries st1) (write_views nd images entries st2).
Proof.
  induction entries as [|entry rest IH]; intros st1 st2 Hagree;
    cbn [write_views]; [exact Hagree|].
  pose proof (write_view_same nd images entry st1 st2 Hagree) as Hv.
  destruct (write_view nd images entry st1) as [e1|s1];
    destruct (write_view nd images entry st2) as [e2|s2];
    cbn [outcomes_agree] in Hv; try exact Hv; try contradiction.
  now apply IH.
Qed.

Lemma init_states_agree s1 s2 images lookup fs :
  set_iter_spec s1 -> set_iter_spec s2 ->
  states_agree (init_state s1 images lookup fs)
               (init_state s2 images lookup fs).
Proof.
  intros Hs1 Hs2. split; [reflexivity|]. split; [|split; reflexivity].
  intros t. cbn [found_markers init_state].
  destruct (in_dec Z.eq_dec t (nodup Z.eq_dec (all_tagids images)))
    as [Hin|Hout].
  - rewrite !fold_set_get; [reflexivity | right | right];
      (eapply Permutation_in; [apply Permutation_sym; auto | exact Hin]).
  - rewrite !fold_set_get_other; [reflexivity | |];
      intros Hx; apply Hout; (eapply Permutation_in; [|exact Hx]); auto.
Qed.

Lemma write_describers_same s1 s2 nd images lookup fs :
  set_iter_spec s1 -> set_iter_spec s2 ->
  write_describers s1 nd images lookup fs
  = write_describers s2 nd images lookup fs.
Proof.
  intros Hs1 Hs2. unfold write_describers.
  pose proof (write_views_same nd images lookup _ _
                (init_states_agree s1 s2 images lookup fs Hs1 Hs2)) as Hsame.
  destruct (write_views nd images lookup (init_state s1 images lookup fs))
    as [e1|st1];
    destruct (write_views nd images lookup (init_state s2 images lookup fs))
      as [e2|st2];
    cbn [outcomes_agree] in Hsame; try contradiction.
  - now subst.
  - destruct Hsame as [-> [_ [-> _]]]. reflexivity.
Qed.

(** X15. The order in which Python iterates a set does not show in what
    [write_describers] returns: for any two iteration orders it ends the
    same way, with the same files and the same feature index; and so does
    [processChunk] with bypass off. *)
Theorem set_order_irrelevant :
  forall s1 s2 nd images lookup fs,
    set_iter_spec s1 -> set_iter_spec s2 ->
    write_describers s1 nd images lookup fs
    = write_describers s2 nd images lookup fs /\
    (hack nd = false -> processChunk s1 nd fs = processChunk s2 nd fs).
Proof.
  intros s1 s2 nd images lookup fs Hs1 Hs2.
  split; [now apply write_describers_same|].
  intros Hhack. unfold processChunk.
  destruct (matches nd) as [content|]; [|reflexivity].
  destruct (load_viewids (input nd)) as [e|lk]; [reflexivity|].
  destruct (load_images content _) as [e|im]; [reflexivity|].
  rewrite (write_describers_same s1 s2 nd im lk fs Hs1 Hs2).
  destruct (write_describers s2 nd im lk fs) as [e|[fs' fl]]; [reflexivity|].
  now rewrite Hhack.
Qed.

(** ** [load_viewids]: the keys of the catalogue *)

Lemma split_on_pieces sep s : forall cur piece,
  ~ In sep cur ->
  In piece (split_on sep s cur) -> ~ In sep piece.
Proof.
  induction s as [|c r IH]; intros cur piece Hcur; cbn [split_on].
  - intros [<-|[]]. now rewrite <- in_rev.
  - destruct (Ascii.eqb c sep) eqn:E.
    + intros [<-|Hin]; [now rewrite <- in_rev|].
      eapply IH; [|exact Hin]. intros [].
    + apply Ascii.eqb_neq in E. apply IH.
      intros [Heq|Hin]; [congruence | contradiction].
Qed.

Lemma last_of_all {A : Type} (P : A -> Prop) (l : list A) d :
  P d -> (forall x, In x l -> P x) -> P (last l d).
Proof.
  induction l as [|a r IH]; intros Hd Hl; [exact Hd|].
  destruct r as [|b r]; [apply Hl; now left|].
  change (P (last (b :: r) d)). apply IH; [exact Hd|].
  intros x Hx. apply Hl. now right.
Qed.

Lemma basename_no_slash p :
  ~ In "/"%char (list_ascii_of_string (basename p)).
Proof.
  unfold basename. rewrite list_ascii_of_string_of_list_ascii.
  apply last_of_all; [intros []|].
  intros piece Hin. eapply split_on_pieces; [|exact Hin]. intros [].
Qed.

(** X16. Every key of the catalogue [load_viewids] returns is the base name
    of the path of one of the records and holds no slash; so an image name
    that holds a slash is no key of the catalogue, and the rows of a marker
    table that name an image by such a path belong to no view. *)
Theorem catalogue_keys_are_base_names :
  forall views lookup,
    load_viewids (Some views) = inr lookup ->
    (forall key, In key (dict_keys lookup) ->
       (exists item, In item views /\ key = basename (path item)) /\
       ~ In "/"%char (list_ascii_of_string key)) /\
    (forall name, In "/"%char (list_ascii_of_string name) ->
       dict_get lookup name = None).
Proof.
  intros views lookup Hrun. rewrite load_viewids_fold in Hrun.
  injection Hrun as <-.
  destruct (views_fold_keys views []) as [_ Hkeys]; [constructor|].
  assert (Hkey : forall key,
             In key (dict_keys (fold_left views_step views [])) ->
             exists item, In item views /\ key = basename (path item)).
  { intros key Hin. apply Hkeys in Hin as [[]|Hin].
    unfold basenames in Hin. apply in_map_iff in Hin as [item [<- Hitem]].
    eauto. }
  split.
  - intros key Hin. split; [now apply Hkey|].
    destruct (Hkey key Hin) as [item [_ ->]]. apply basename_no_slash.
  - intros name Hslash. apply dict_get_none_key. intros Hin.
    destruct (Hkey name Hin) as [item [_ ->]].
    now apply basename_no_slash in Hslash.
Qed.

(** ** The further properties at sample inputs *)

Lemma load_images_first_bad_row_witness :
  load_images table_blank_line ","%char = inl IndexError /\
  load_images table_bad_id ","%char = inl ValueError.
Proof.
  assert (Hgood : Forall well_formed_row [["10"; "20"; "imgA.jpg"; "3"; "5"]]).
  { constructor; [|constructor].
    split; [simpl; lia | exists 3%Z; vm_compute; reflexivity]. }
  split.
  - apply (proj1 (load_images_first_bad_row table_blank_line ","%char
                    [["10"; "20"; "imgA.jpg"; "3"; "5"]] []
                    [["30"; "40"; "imgB.jpg"; "3"; "5"]]
                    ltac:(vm_compute; reflexivity) Hgood)).
    simpl. lia.
  - apply (proj2 (load_images_first_bad_row table_bad_id ","%char
                    [["10"; "20"; "imgA.jpg"; "3"; "5"]]
                    ["30"; "40"; "imgB.jpg"; "three"; "5"] []
                    ltac:(vm_compute; reflexivity) Hgood)).
    + simpl. lia.
    + vm_compute. reflexivity.
Defined.

Lemma grouping_never_fails_witness :
  (exists images,
     append_items
       [("imgA.jpg", marker_of "10" "20" "5" 3);
        ("imgB.jpg", marker_of "30" "40" "5" 3);
        ("imgA.jpg", marker_of "11" "21" "5" 4)]
       (init_groups
          [("imgA.jpg", marker_of "10" "20" "5" 3);
           ("imgB.jpg", marker_of "30" "40" "5" 3);
           ("imgA.jpg", marker_of "11" "21" "5" 4)]) = inr images /\
     group_total images = 3 /\
     (forall group, In ("imgA.jpg", group) images ->
        group = [marker_of "10" "20" "5" 3; marker_of "11" "21" "5" 4])) /\
  (exists images,
     load_images sample_table ","%char = inr images /\
     group_total images = 2).
Proof.
  split.
  - destruct (grouping_never_fails
                [("imgA.jpg", marker_of "10" "20" "5" 3);
                 ("imgB.jpg", marker_of "30" "40" "5" 3);
                 ("imgA.jpg", marker_of "11" "21" "5" 4)])
      as [images [Hrun [_ [_ [_ [Hgroups Htotal]]]]]].
    exists images. split; [exact Hrun|]. split; [exact Htotal|].
    intros group Hin. exact (proj2 (Hgroups "imgA.jpg" group Hin)).
  - destruct (grouping_never_fails
                [("imgA.jpg", marker_of "10" "20" "5" 3);
                 ("imgB.jpg", marker_of "30" "40" "5" 3)])
      as [images [_ [Hload [_ [_ [_ Htotal]]]]]].
    exists images. split; [|exact Htotal].
    apply Hload. vm_compute. reflexivity.
Defined.

Lemma sample_run_limit :
  exists fs' fl,
    write_describers id_iter limit_node sample_images sample_lookup []
    = inr (fs', fl).
Proof. vm_compute. eauto. Qed.

Lemma feature_file_matches_count_witness :
  exists fs' fl bytes,
    write_describers id_iter limit_node sample_images
      ([] ++ ("imgA.jpg", "1") :: [("imgB.jpg", "2")]) [] = inr (fs', fl) /\
    dict_get fs' "/out/1.cctag3.feat" = Some (TextFile ("10 20 5 0" +++ nl)) /\
    dict_get fs' "/out/1.cctag3.desc" = Some (BinaryFile bytes) /\
    le_decode (firstn 8 bytes) = 1%Z.
Proof.
  destruct sample_run_limit as [fs' [fl Hrun]].
  destruct (feature_file_matches_count id_iter limit_node sample_images []
              [] "imgA.jpg" "1" [("imgB.jpg", "2")] fs' fl Hrun
              (sample_not_rewritten limit_node eq_refl eq_refl))
    as [Hfeat [bytes [Hdesc Hdec]]].
  exists fs', fl, bytes. split; [exact Hrun|].
  split; [exact Hfeat|]. split; [exact Hdesc | exact Hdec].
Defined.

Lemma write_describers_other_files_untouched_witness :
  exists fs' fl,
    write_describers id_iter limit_node sample_images sample_lookup other_files
    = inr (fs', fl) /\
    dict_get fs' "/out/notes.txt" = Some (TextFile "keep").
Proof.
  assert (Hrun : exists fs' fl,
             write_describers id_iter limit_node sample_images sample_lookup
               other_files = inr (fs', fl)) by (vm_compute; eauto).
  destruct Hrun as [fs' [fl Hrun]]. exists fs', fl. split; [exact Hrun|].
  rewrite (write_describers_other_files_untouched id_iter limit_node
             sample_images sample_lookup other_files fs' fl "/out/notes.txt"
             Hrun); [reflexivity|].
  intros entry [<-|[<-|[]]]; split; vm_compute; discriminate.
Defined.

Lemma every_view_has_its_files_witness :
  exists fs' fl,
    write_describers id_iter limit_node partial_images sample_lookup []
    = inr (fs', fl) /\
    view_files_ok limit_node "2" fs'.
Proof.
  assert (Hrun : exists fs' fl,
             write_describers id_iter limit_node partial_images sample_lookup
               [] = inr (fs', fl)) by (vm_compute; eauto).
  destruct Hrun as [fs' [fl Hrun]]. exists fs', fl. split; [exact Hrun|].
  apply (every_view_has_its_files id_iter limit_node partial_images
           sample_lookup [] fs' fl Hrun "imgB.jpg" "2").
  right. now left.
Defined.

Lemma feature_index_shape_witness :
  exists fs' fl,
    write_describers id_iter limit_node sample_images sample_lookup []
    = inr (fs', fl) /\
    dict_keys fl = ["1"; "2"].
Proof.
  destruct sample_run_limit as [fs' [fl Hrun]]. exists fs', fl.
  split; [exact Hrun|].
  exact (proj1 (feature_index_shape id_iter limit_node sample_images
                  sample_lookup [] fs' fl sample_lookup_distinct Hrun)).
Defined.

Lemma markers_report_counts_witness :
  exists report,
    write_describers_report id_iter sample_node repeated_images sample_lookup []
    = inr report /\
    In (report_line 3 3) report.
Proof.
  assert (Hrun : exists report,
             write_describers_report id_iter sample_node repeated_images
               sample_lookup [] = inr report) by (vm_compute; eauto).
  destruct Hrun as [report Hrun]. exists report. split; [exact Hrun|].
  destruct (markers_report_counts id_iter sample_node repeated_images
              sample_lookup [] report id_iter_spec Hrun)
    as [found [_ [_ [_ [_ Hline]]]]].
  apply (Hline 3%Z). simpl. now left.
Defined.

Lemma view_file_paths_witness :
  desc_path sample_node "/tmp/1" = "/tmp/1.cctag3.desc" /\
  feat_path sample_node "1" = "/out/1.cctag3.feat" /\
  basename (feat_path sample_node "1") = "1.cctag3.feat" /\
  basename (feat_path sample_node "2") <> basename (feat_path sample_node "1")
  /\
  not_rewritten sample_node "1" [("imgB.jpg", "2")].
Proof.
  destruct (view_file_paths sample_node "/tmp/1") as [Habs _].
  destruct (view_file_paths sample_node "1") as [_ Hrel].
  destruct Hrel as [Hf [_ [Hbf [_ [_ [Hother Hnot]]]]]].
  { simpl. intuition discriminate. }
  split; [exact (proj2 (Habs eq_refl))|].
  split; [exact Hf|]. split; [exact Hbf|]. split.
  - apply (Hother "2"); [simpl; intuition discriminate | discriminate].
  - apply (Hnot [] [("imgB.jpg", "2")] "imgA.jpg").
    + exact sample_lookup_distinct.
    + intros v [<-|[]]. simpl. intuition discriminate.
Defined.

Lemma no_match_file_without_bypass_witness :
  exists fs',
    processChunk id_iter limit_node other_files = inr fs' /\
    dict_get fs' "/out/0.matches.txt" = Some (TextFile "old").
Proof.
  assert (Hrun : exists fs',
             processChunk id_iter limit_node other_files = inr fs')
    by (vm_compute; eauto).
  destruct Hrun as [fs' Hrun]. exists fs'. split; [exact Hrun|].
  exact (no_match_file_without_bypass id_iter limit_node other_files fs'
           eq_refl Hrun).
Defined.

Lemma sample_groups_ok : groups_ok sample_images.
Proof.
  intros img group [[= <- <-]|[[= <- <-]|[]]];
    (split; [discriminate | reflexivity]).
Qed.

Lemma no_lookup_failure_witness :
  write_describers id_iter limit_node images_128 sample_lookup []
  <> inl KeyError /\
  (exists fs' fl,
     write_describers id_iter sample_node sample_images sample_lookup []
     = inr (fs', fl) /\
     make_matches_txt id_iter sample_node
       (combinations2 (dict_values sample_lookup)) fl fs' <> inl KeyError) /\
  processChunk id_iter limit_node [] <> inl UnboundLocalError.
Proof.
  split; [|split].
  - intros Hrun.
    destruct (no_lookup_failure id_iter limit_node [] id_iter_spec)
      as [Hmethods _].
    destruct (Hmethods images_128 sample_lookup (single_group_ok _ _))
      as [Hfail _].
    destruct (Hfail KeyError Hrun) as [Hne _]. now apply Hne.
  - assert (Hrun : exists fs' fl,
               write_describers id_iter sample_node sample_images sample_lookup
                 [] = inr (fs', fl)) by (vm_compute; eauto).
    destruct Hrun as [fs' [fl Hrun]]. exists fs', fl. split; [exact Hrun|].
    destruct (no_lookup_failure id_iter sample_node [] id_iter_spec)
      as [Hmethods _].
    exact (proj2 (Hmethods sample_images sample_lookup sample_groups_ok)
                 fs' fl Hrun).
  - destruct (no_lookup_failure id_iter limit_node [] id_iter_spec)
      as [_ Hchunk].
    apply Hchunk. intros content [= <-].
    change (delimiters_options (delimiter limit_node)) with ","%char.
    replace (csv_reader ","%char sample_table)
      with [["10"; "20"; "imgA.jpg"; "3"; "5"];
            ["30"; "40"; "imgB.jpg"; "3"; "5"]]
      by (vm_compute; reflexivity).
    reflexivity.
Defined.

Lemma processChunk_rerun_witness :
  exists fs' fs'',
    processChunk id_iter sample_node [] = inr fs' /\
    processChunk id_iter sample_node fs' = inr fs'' /\
    dict_get fs'' "/out/0.matches.txt" = dict_get fs' "/out/0.matches.txt".
Proof.
  assert (Hrun : exists fs', processChunk id_iter sample_node [] = inr fs')
    by (vm_compute; eauto).
  destruct Hrun as [fs' Hrun].
  destruct (processChunk_rerun id_iter sample_node [] fs' Hrun)
    as [fs'' [Hagain Hsame]].
  exists fs', fs''. split; [exact Hrun|]. split; [exact Hagain|]. apply Hsame.
Defined.

Lemma match_block_format_witness :
  match_block id_iter sample_node sample_index ("1", "2")
  = inr ["1 2"; "1"; "cctag3 1"; "0 0"].
Proof.
  destruct (match_block_format id_iter sample_node sample_index "1" "2"
              [(3%Z, "0")] [(3%Z, "0")] id_iter_spec eq_refl eq_refl)
    as [block [Hrun [Hempty Hshape]]].
  rewrite Hrun. f_equal.
  assert (Hne : block <> []).
  { intros Hnil. apply (proj1 Hempty Hnil 3%Z). simpl. auto. }
  destruct (Hshape Hne) as [tags [lines [-> [_ [Hp [_ [_ Hall]]]]]]].
  change (shared_tags [(3%Z, "0")] [(3%Z, "0")]) with [3%Z] in Hp.
  apply Permutation_sym, Permutation_length_1_inv in Hp. subst tags.
  inversion Hall as [|t line ts ls [a [b [Ha [Hb ->]]]] Hrest]; subst.
  inversion Hrest; subst.
  injection Ha as <-. injection Hb as <-. reflexivity.
Defined.

Lemma image_pairs_exhaustive_witness :
  NoDup (combinations2 (dict_values sample_lookup)) /\
  2 * length (combinations2 (dict_values sample_lookup)) = 2 * (2 - 1).
Proof.
  destruct (image_pairs_exhaustive sample_lookup) as [Hlen [_ Hnd]].
  split; [exact (proj1 (Hnd sample_lookup_distinct)) | exact Hlen].
Defined.


Lemma rev_iter_spec : set_iter_spec (@rev Z).
Proof. intros l. apply Permutation_sym, Permutation_rev. Qed.

Lemma set_order_irrelevant_witness :
  write_describers id_iter limit_node sample_images sample_lookup []
  = write_describers (@rev Z) limit_node sample_images sample_lookup [].
Proof.
  exact (proj1 (set_order_irrelevant id_iter (@rev Z) limit_node sample_images
                  sample_lookup [] id_iter_spec rev_iter_spec)).
Defined.

Lemma catalogue_keys_are_base_names_witness :
  dict_get sample_lookup "/data/imgA.jpg" = None.
Proof.
  destruct (catalogue_keys_are_base_names sample_views sample_lookup eq_refl)
    as [_ Hslash].
  apply Hslash. simpl. now left.
Defined.
